(** * Ustaad AI tutoring chat: the PCM decoder, the conversation
      orchestrator and the audio playback controller.

    The development follows the TypeScript sources:
    - [types.ts]                      : [Subject], [Message], [ChatState];
    - [services/geminiService]        : [generateTutorResponse],
                                        [base64ToBytes], [decodePCM];
    - [App.tsx]                       : the handlers of the [App] component;
    - [components/MessageBubble.tsx]  : [handlePlayAudio].

    JavaScript strings are sequences of UTF-16 code units, numbers that the
    code only uses as integers are [Z], and the samples written into a
    [Float32Array] are exact rationals: a 16-bit integer divided by 2^15 is
    representable without rounding both in binary64 and in binary32. *)

From Stdlib Require Import ZArith NArith QArith List String Ascii Bool Lia.
From Stdlib Require Import DecimalString DecimalZ DecimalPos.
Import ListNotations.

(** [a[i] = x] where the index is in range; a store outside is ignored, as
    it is on a typed array. *)
Fixpoint setNth {A} (i : nat) (x : A) (a : list A) : list A :=
  match a, i with
  | [], _ => []
  | _ :: r, O => x :: r
  | y :: r, S j => y :: setNth j x r
  end.

(** ** The platform: strings, [trim], [toString], [atob] *)

Module JS.

(** A JavaScript string: its UTF-16 code units. *)
Definition jsstring := list N.

(** A string literal of the source (all of them are ASCII). *)
Definition lit (s : string) : jsstring :=
  map N_of_ascii (list_ascii_of_string s).

Definition jsstring_eq_dec : forall a b : jsstring, {a = b} + {a <> b} :=
  list_eq_dec N.eq_dec.

(** [a === b] on strings. *)
Definition str_eqb (a b : jsstring) : bool :=
  if jsstring_eq_dec a b then true else false.

(** Truthiness of a string: only the empty string is falsy. *)
Definition truthy (s : jsstring) : bool :=
  match s with [] => false | _ :: _ => true end.

(** Truthiness of [string | null | undefined]. *)
Definition truthy_opt (o : option jsstring) : bool :=
  match o with Some s => truthy s | None => false end.

(** [o || d] for [o : string | undefined]. *)
Definition or_else (o : option jsstring) (d : jsstring) : jsstring :=
  match o with
  | Some s => if truthy s then s else d
  | None => d
  end.

(** ECMAScript WhiteSpace and LineTerminator code units, the ones that
    [String.prototype.trim] strips. *)
Definition isWhiteSpace (c : N) : bool :=
  ((c =? 9) || (c =? 10) || (c =? 11) || (c =? 12) || (c =? 13)
   || (c =? 32) || (c =? 160) || (c =? 5760)
   || ((8192 <=? c) && (c <=? 8202))
   || (c =? 8232) || (c =? 8233) || (c =? 8239) || (c =? 8287)
   || (c =? 12288) || (c =? 65279))%N.

Fixpoint trimStart (s : jsstring) : jsstring :=
  match s with
  | c :: r => if isWhiteSpace c then trimStart r else s
  | [] => []
  end.

Definition trimEnd (s : jsstring) : jsstring := rev (trimStart (rev s)).

Definition trim (s : jsstring) : jsstring := trimEnd (trimStart s).

(** [n.toString()] for an integral number. *)
Definition toString (n : Z) : jsstring :=
  lit (NilZero.string_of_int (Z.to_int n)).

(** *** [atob]: the forgiving-base64 decode of the HTML standard *)

Definition isAsciiWhitespace (c : N) : bool :=
  ((c =? 9) || (c =? 10) || (c =? 12) || (c =? 13) || (c =? 32))%N.

(** The value of a base64 alphabet character, [None] outside the alphabet. *)
Definition b64val (c : N) : option N :=
  (if (65 <=? c) && (c <=? 90) then Some (c - 65)
   else if (97 <=? c) && (c <=? 122) then Some (c - 71)
   else if (48 <=? c) && (c <=? 57) then Some (c + 4)
   else if c =? 43 then Some 62
   else if c =? 47 then Some 63
   else None)%N.

Fixpoint b64vals (s : jsstring) : option (list N) :=
  match s with
  | [] => Some []
  | c :: r =>
      match b64val c, b64vals r with
      | Some v, Some vs => Some (v :: vs)
      | _, _ => None
      end
  end.

(** Remove one or two trailing [=] signs. *)
Definition stripPadding (s : jsstring) : jsstring :=
  match rev s with
  | c1 :: r1 =>
      if (c1 =? 61)%N then
        match r1 with
        | c2 :: r2 => if (c2 =? 61)%N then rev r2 else rev r1
        | [] => rev r1
        end
      else s
  | [] => s
  end.

(** Four 6-bit values give three bytes; a last group of three values gives
    two bytes and one of two values gives one byte, the remaining bits being
    discarded. *)
Fixpoint sextetsToBytes (vs : list N) : list N :=
  match vs with
  | a :: b :: c :: d :: rest =>
      (4 * a + b / 16)%N :: ((b mod 16) * 16 + c / 4)%N
        :: ((c mod 4) * 64 + d)%N :: sextetsToBytes rest
  | [a; b; c] => [(4 * a + b / 16)%N; ((b mod 16) * 16 + c / 4)%N]
  | [a; b] => [(4 * a + b / 16)%N]
  | _ => []
  end.

(** [atob data]: [None] stands for the [InvalidCharacterError] it throws.
    The result is a binary string: one code unit below 256 per byte. *)
Definition atob (data : jsstring) : option jsstring :=
  let d1 := filter (fun c => negb (isAsciiWhitespace c)) data in
  let d2 := if (Nat.modulo (List.length d1) 4 =? 0)%nat then stripPadding d1 else d1 in
  if (Nat.modulo (List.length d2) 4 =? 1)%nat then None
  else option_map sextetsToBytes (b64vals d2).

(** *** [btoa]: base64 encoding of a binary string *)

(** The alphabet character of a 6-bit value. *)
Definition b64char (v : N) : N :=
  (if v <? 26 then v + 65
   else if v <? 52 then v + 71
   else if v <? 62 then v - 4
   else if v =? 62 then 43
   else 47)%N.

(** Three bytes give four characters; a last group of one or two bytes is
    completed with zero bits and padded with [=]. *)
Fixpoint encodeBytes (bytes : list N) : jsstring :=
  match bytes with
  | a :: b :: c :: rest =>
      b64char (a / 4) :: b64char ((a mod 4) * 16 + b / 16)
        :: b64char ((b mod 16) * 4 + c / 64) :: b64char (c mod 64)
        :: encodeBytes rest
  | [a; b] =>
      [b64char (a / 4); b64char ((a mod 4) * 16 + b / 16);
       b64char ((b mod 16) * 4); 61]%N
  | [a] => [b64char (a / 4); b64char ((a mod 4) * 16); 61; 61]%N
  | [] => []
  end.

(** The encoding without its padding, and the 6-bit values it stands for. *)
Fixpoint unpadded (bytes : list N) : jsstring :=
  match bytes with
  | a :: b :: c :: rest =>
      b64char (a / 4) :: b64char ((a mod 4) * 16 + b / 16)
        :: b64char ((b mod 16) * 4 + c / 64) :: b64char (c mod 64)
        :: unpadded rest
  | [a; b] =>
      [b64char (a / 4); b64char ((a mod 4) * 16 + b / 16);
       b64char ((b mod 16) * 4)]%N
  | [a] => [b64char (a / 4); b64char ((a mod 4) * 16)]%N
  | [] => []
  end.

Fixpoint sextets (bytes : list N) : list N :=
  match bytes with
  | a :: b :: c :: rest =>
      (a / 4 :: (a mod 4) * 16 + b / 16 :: (b mod 16) * 4 + c / 64
         :: c mod 64 :: sextets rest)%N
  | [a; b] => [a / 4; (a mod 4) * 16 + b / 16; (b mod 16) * 4]%N
  | [a] => [a / 4; (a mod 4) * 16]%N
  | [] => []
  end.

(** [btoa data]: [None] stands for the [InvalidCharacterError] thrown when
    a code unit is above 255. *)
Definition btoa (data : jsstring) : option jsstring :=
  if forallb (fun c => (c <? 256)%N) data then Some (encodeBytes data)
  else None.

End JS.
Import JS.

(** ** [types.ts] *)

Inductive Subject : Set :=
| ENGLISH | URDU | MATHS | PHYSICS | CHEMISTRY | BIOLOGY | COMPUTER | GENERAL.

(** The string value of an enum member. *)
Definition Subject_value (s : Subject) : string :=
  match s with
  | ENGLISH => "English"
  | URDU => "Urdu"
  | MATHS => "Mathematics"
  | PHYSICS => "Physics"
  | CHEMISTRY => "Chemistry"
  | BIOLOGY => "Biology"
  | COMPUTER => "Computer Science"
  | GENERAL => "General Help"
  end.

(** The members of the enum, in declaration order, with their names. *)
Definition Subject_members : list (string * Subject) :=
  [ ("ENGLISH", ENGLISH); ("URDU", URDU); ("MATHS", MATHS);
    ("PHYSICS", PHYSICS); ("CHEMISTRY", CHEMISTRY); ("BIOLOGY", BIOLOGY);
    ("COMPUTER", COMPUTER); ("GENERAL", GENERAL) ]%string.

(** [Subject.NAME]: a property read on the enum object, [None] ([undefined])
    when the enum has no member of that name. *)
Fixpoint lookup_member (name : string) (l : list (string * Subject))
  : option Subject :=
  match l with
  | [] => None
  | (n, s) :: r => if String.eqb n name then Some s else lookup_member name r
  end.

Definition Subject_get (name : string) : option Subject :=
  lookup_member name Subject_members.

Record Source : Set := { title : jsstring; uri : jsstring }.

Inductive Role : Set := user | model.

Record Message : Set := {
  id : jsstring;
  role : Role;
  text : jsstring;
  timestamp : Z;
  sources : option (list Source);
  imageUrl : option jsstring;
  imageError : option bool;
  isError : option bool
}.

Inductive ImageStyle : Set :=
| Scientific | Cartoon | Realistic | Blueprint | LowPoly.

Record ChatState : Set := {
  messages : list Message;
  isLoading : bool;
  selectedSubject : option Subject
}.

(** ** [services/geminiService] *)

Module GeminiService.

(** *** [generateTutorResponse] *)

(** What the code reads of the response of [ai.models.generateContent]:
    [response.text] and the grounding chunks of the first candidate. *)
Record WebChunk : Set := { web_title : option jsstring; web_uri : jsstring }.
Record GroundingChunk : Set := { web : option WebChunk }.
Record ApiResponse : Set := {
  response_text : option jsstring;
  groundingChunks : option (list GroundingChunk)
}.

Record GenerateResponseResult : Set := {
  result_text : jsstring;
  result_sources : list Source
}.

Definition NO_ANSWER : jsstring :=
  lit "Sorry, I couldn't generate an answer. Please try again.".

(** The [forEach] over the grounding chunks. *)
Definition extractSources (chunks : option (list GroundingChunk))
  : list Source :=
  match chunks with
  | None => []
  | Some cs =>
      flat_map (fun chunk =>
        match web chunk with
        | Some w => [ {| title := or_else (web_title w) (lit "Reference Link");
                         uri := web_uri w |} ]
        | None => []
        end) cs
  end.

(** The body of [generateTutorResponse] after the [await]: [outcome] is what
    the API call settled with, [None] when it rejected.  The function
    rejects ([None]) exactly when the call did: the [catch] re-throws a
    generic error. *)
Definition generateTutorResponse (outcome : option ApiResponse)
  : option GenerateResponseResult :=
  match outcome with
  | Some response =>
      let text := or_else (response_text response) NO_ANSWER in
      let sources := extractSources (groundingChunks response) in
      Some {| result_text := text; result_sources := sources |}
  | None => None
  end.

(** *** Audio helpers *)

Inductive DecodeError : Set :=
| InvalidCharacterError   (* thrown by [atob] *)
| RangeError              (* thrown by [new Int16Array(buffer)] *)
| NotSupportedError.      (* thrown by [createBuffer] *)

Inductive Result (A : Type) : Type :=
| Ok (a : A)
| Throw (e : DecodeError).
Arguments Ok {A} a.
Arguments Throw {A} e.

Definition bind {A B} (r : Result A) (k : A -> Result B) : Result B :=
  match r with Ok a => k a | Throw e => Throw e end.

Notation "'let*' x ':=' r 'in' k" := (bind r (fun x => k))
  (at level 10, x name, r at level 100, k at level 200).

(** [base64ToBytes]: the loop stores [charCodeAt(i)] into a [Uint8Array],
    which keeps it modulo 256. *)
Definition base64ToBytes (base64 : jsstring) : Result (list N) :=
  match atob base64 with
  | Some binaryString => Ok (map (fun c => (c mod 256)%N) binaryString)
  | None => Throw InvalidCharacterError
  end.

(** The element of an [Int16Array] over two bytes (little-endian host). *)
Definition int16_of_bytes (lo hi : N) : Z :=
  let u := (Z.of_N lo + 256 * Z.of_N hi)%Z in
  if (u <? 32768)%Z then u else (u - 65536)%Z.

Fixpoint int16_elements (bytes : list N) : list Z :=
  match bytes with
  | lo :: hi :: rest => int16_of_bytes lo hi :: int16_elements rest
  | _ => []
  end.

(** [new Int16Array(buffer)]: a [RangeError] unless the byte length of the
    buffer is a multiple of the element size. *)
Definition Int16Array_of_buffer (bytes : list N) : Result (list Z) :=
  if Nat.even (List.length bytes) then Ok (int16_elements bytes)
  else Throw RangeError.

Record AudioBuffer : Set := {
  numberOfChannels : nat;
  frameLength : nat;
  sampleRate : Z;
  channelData : list (list Q)
}.

(** [audioContext.createBuffer] of the Web Audio API: a zero-filled buffer,
    or a [NotSupportedError] when an argument is outside its nominal range
    (at least one channel and one frame; 32 channels and the rates from
    8000 to 96000 Hz are what every implementation supports). *)
Definition createBuffer (numChannels frameCount : nat) (rate : Z)
  : Result AudioBuffer :=
  if ((1 <=? numChannels)%nat && (numChannels <=? 32)%nat
      && (1 <=? frameCount)%nat
      && (8000 <=? rate)%Z && (rate <=? 96000)%Z)%bool
  then Ok {| numberOfChannels := numChannels;
             frameLength := frameCount;
             sampleRate := rate;
             channelData := repeat (repeat 0%Q frameCount) numChannels |}
  else Throw NotSupportedError.

(** The sample written for an [Int16Array] element. *)
Definition toFloat (v : Z) : Q := (inject_Z v / 32768)%Q.

(** The inner loop of [decodePCM] for one channel.  The index read is
    always inside [int16Data], [frameCount] being its length divided by the
    number of channels. *)
Definition fillChannel (int16Data : list Z) (numChannels channel frameCount : nat)
  (data : list Q) : list Q :=
  fold_left
    (fun data i =>
       match nth_error int16Data (i * numChannels + channel) with
       | Some v => setNth i (toFloat v) data
       | None => data
       end)
    (seq 0 frameCount) data.

(** The outer loop: every channel of the buffer is filled in turn. *)
Definition fillChannels (int16Data : list Z) (numChannels frameCount : nat)
  (chans : list (list Q)) : list (list Q) :=
  fold_left
    (fun chans channel =>
       match nth_error chans channel with
       | Some data =>
           setNth channel
             (fillChannel int16Data numChannels channel frameCount data) chans
       | None => chans
       end)
    (seq 0 numChannels) chans.

Definition decodePCM (base64Data : jsstring) : Result AudioBuffer :=
  let* bytes := base64ToBytes base64Data in
  let sampleRate := 24000%Z in
  let numChannels := 1%nat in
  let* int16Data := Int16Array_of_buffer bytes in
  let frameCount := Nat.div (List.length int16Data) numChannels in
  let* buffer := createBuffer numChannels frameCount sampleRate in
  Ok {| numberOfChannels := numberOfChannels buffer;
        frameLength := frameLength buffer;
        sampleRate := GeminiService.sampleRate buffer;
        channelData :=
          fillChannels int16Data numChannels frameCount (channelData buffer) |}.

End GeminiService.

(** ** [App.tsx]: the conversation orchestrator *)

Module App.
Import GeminiService.

Record SubjectConfig : Set := {
  config_id : option Subject;
  icon : string;
  color : string
}.

(** Every [id] is a property read on the [Subject] enum object. *)
Definition SUBJECTS_CONFIG : list SubjectConfig :=
  [ {| config_id := Subject_get "ENGLISH"; icon := "fas fa-book-open"; color := "bg-indigo-500" |};
    {| config_id := Subject_get "URDU"; icon := "fas fa-pen-nib"; color := "bg-emerald-600" |};
    {| config_id := Subject_get "MATHS"; icon := "fas fa-calculator"; color := "bg-rose-500" |};
    {| config_id := Subject_get "PHYSICS"; icon := "fas fa-atom"; color := "bg-violet-600" |};
    {| config_id := Subject_get "CHEMISTRY"; icon := "fas fa-flask"; color := "bg-amber-500" |};
    {| config_id := Subject_get "BIOLOGY"; icon := "fas fa-dna"; color := "bg-teal-500" |};
    {| config_id := Subject_get "COMPUTER"; icon := "fas fa-laptop-code"; color := "bg-blue-500" |};
    {| config_id := Subject_get "PAK_STUDIES"; icon := "fas fa-landmark"; color := "bg-green-600" |} ]%string.

(** A collaborator call, with its arguments. *)
Inductive Call : Set :=
| TutorCall (prompt : jsstring) (history : list (Role * jsstring)) (subject : Subject)
| ImageCall (userQuery : jsstring) (subject : Subject) (style : ImageStyle).

(** An invocation of [handleSendMessage] suspended at one of its two
    [await]s, with the variables its continuation reads; [Settled] once it
    has returned. *)
Inductive Task : Set :=
| AwaitTutor (userText : jsstring) (subject : Subject) (style : ImageStyle)
| AwaitImage (botMessageId : jsstring)
| Settled.

(** The state of the component ([useState]), the invocations of
    [handleSendMessage] in the order they were made, the collaborator calls
    issued so far, each with the index of the invocation that issued it, and
    the identifiers whose image step has resolved (the last two are logs,
    the code never reads them). *)
Record World : Set := {
  chatState : ChatState;
  inputText : jsstring;
  visualStyle : ImageStyle;
  tasks : list Task;
  calls : list (nat * Call);
  imageResolved : list jsstring
}.

Definition initial : World :=
  {| chatState := {| messages := []; isLoading := false; selectedSubject := None |};
     inputText := [];
     visualStyle := Scientific;
     tasks := [];
     calls := [];
     imageResolved := [] |}.

(** [setChatState(prev => f prev)] *)
Definition setChatState (f : ChatState -> ChatState) (w : World) : World :=
  {| chatState := f (chatState w);
     inputText := inputText w;
     visualStyle := visualStyle w;
     tasks := tasks w;
     calls := calls w;
     imageResolved := imageResolved w |}.

Definition setInputText (s : jsstring) (w : World) : World :=
  {| chatState := chatState w;
     inputText := s;
     visualStyle := visualStyle w;
     tasks := tasks w;
     calls := calls w;
     imageResolved := imageResolved w |}.

Definition setVisualStyle (st : ImageStyle) (w : World) : World :=
  {| chatState := chatState w;
     inputText := inputText w;
     visualStyle := st;
     tasks := tasks w;
     calls := calls w;
     imageResolved := imageResolved w |}.

(** [`${subject}`] in a template literal. *)
Definition subjectText (subject : option Subject) : jsstring :=
  match subject with
  | Some s => lit (Subject_value s)
  | None => lit "undefined"
  end.

Definition greetingText (subject : option Subject) : jsstring :=
  lit "Assalam-o-Alaikum! I am your " ++ subjectText subject ++ lit " tutor. "
  ++ [10%N] ++ lit "Ask me any question, and I will explain it simply for you. "
  ++ [10%N] ++ lit "(Mujhse koi bhi sawal pouchein, main asani se samjhaunga).".

Definition greeting (ident : jsstring) (subject : option Subject) (now : Z)
  : Message :=
  {| id := ident; role := model; text := greetingText subject;
     timestamp := now; sources := None; imageUrl := None;
     imageError := None; isError := None |}.

Definition handleSubjectSelect (subject : option Subject) (now : Z)
  (w : World) : World :=
  setChatState (fun _ =>
    {| messages := [greeting (lit "welcome") subject now];
       isLoading := false;
       selectedSubject := subject |}) w.

Definition handleBackToHome (w : World) : World :=
  setChatState (fun _ =>
    {| messages := []; isLoading := false; selectedSubject := None |}) w.

(** [confirmed] is the answer of [window.confirm]. *)
Definition handleClearChat (confirmed : bool) (now_id now_ts : Z)
  (w : World) : World :=
  match selectedSubject (chatState w) with
  | None => w
  | Some _ =>
      if confirmed then
        setChatState (fun prev =>
          {| messages := [greeting (toString now_id) (selectedSubject prev) now_ts];
             isLoading := false;
             selectedSubject := selectedSubject prev |}) w
      else w
  end.

Definition ERROR_TEXT : jsstring :=
  lit "Sorry, mere internet mein kuch masla aa gaya hai. Please dubara try karein. (Network error, please retry).".

(** [handleSendMessage] up to its first [await]: the guard, the user
    message, and the call of [generateTutorResponse].  [now_id] and [now_ts]
    are the two readings of [Date.now()]. *)
Definition handleSendMessage (now_id now_ts : Z) (w : World) : World :=
  match selectedSubject (chatState w) with
  | None => w
  | Some subject =>
      if negb (truthy (trim (inputText w))) || isLoading (chatState w) then w
      else
        let userMessage :=
          {| id := toString now_id; role := user; text := inputText w;
             timestamp := now_ts; sources := None; imageUrl := None;
             imageError := None; isError := None |} in
        let history := map (fun m => (role m, text m)) (messages (chatState w)) in
        {| chatState :=
             {| messages := messages (chatState w) ++ [userMessage];
                isLoading := true;
                selectedSubject := selectedSubject (chatState w) |};
           inputText := [];
           visualStyle := visualStyle w;
           tasks := tasks w ++ [AwaitTutor (text userMessage) subject (visualStyle w)];
           calls := calls w
                    ++ [(List.length (tasks w),
                         TutorCall (text userMessage) history subject)];
           imageResolved := imageResolved w |}
  end.

(** The continuation after [await generateTutorResponse(...)] of the
    invocation [k]; [outcome] is what the API call inside settled with. On
    success the reply is appended and [generateEducationalImage] is called;
    on rejection the [catch] block appends the error message. *)
Definition tutorSettled (k : nat) (outcome : option ApiResponse)
  (now_id now_ts : Z) (w : World) : World :=
  match nth_error (tasks w) k with
  | Some (AwaitTutor userText subject style) =>
      match generateTutorResponse outcome with
      | Some response =>
          let botMessageId := toString (now_id + 1) in
          let botMessage :=
            {| id := botMessageId; role := model; text := result_text response;
               timestamp := now_ts; sources := Some (result_sources response);
               imageUrl := None; imageError := None; isError := None |} in
          {| chatState :=
               {| messages := messages (chatState w) ++ [botMessage];
                  isLoading := false;
                  selectedSubject := selectedSubject (chatState w) |};
             inputText := inputText w;
             visualStyle := visualStyle w;
             tasks := setNth k (AwaitImage botMessageId) (tasks w);
             calls := calls w ++ [(k, ImageCall userText subject style)];
             imageResolved := imageResolved w |}
      | None =>
          let errorMessage :=
            {| id := toString (now_id + 1); role := model; text := ERROR_TEXT;
               timestamp := now_ts; sources := None; imageUrl := None;
               imageError := None; isError := Some true |} in
          {| chatState :=
               {| messages := messages (chatState w) ++ [errorMessage];
                  isLoading := false;
                  selectedSubject := selectedSubject (chatState w) |};
             inputText := inputText w;
             visualStyle := visualStyle w;
             tasks := setNth k Settled (tasks w);
             calls := calls w;
             imageResolved := imageResolved w |}
      end
  | _ => w
  end.

(** The function mapped over the messages when the image step resolves. *)
Definition mergeImage (botMessageId : jsstring) (imageResult : option jsstring)
  (msg : Message) : Message :=
  if str_eqb (id msg) botMessageId then
    if truthy_opt imageResult then
      {| id := id msg; role := role msg; text := text msg;
         timestamp := timestamp msg; sources := sources msg;
         imageUrl := imageResult;
         imageError := imageError msg; isError := isError msg |}
    else
      {| id := id msg; role := role msg; text := text msg;
         timestamp := timestamp msg; sources := sources msg;
         imageUrl := imageUrl msg;
         imageError := Some true; isError := isError msg |}
  else msg.

(** The continuation after [await generateEducationalImage(...)] of the
    invocation [k]. *)
Definition imageSettled (k : nat) (imageResult : option jsstring)
  (w : World) : World :=
  match nth_error (tasks w) k with
  | Some (AwaitImage botMessageId) =>
      {| chatState :=
           {| messages := map (mergeImage botMessageId imageResult)
                              (messages (chatState w));
              isLoading := isLoading (chatState w);
              selectedSubject := selectedSubject (chatState w) |};
         inputText := inputText w;
         visualStyle := visualStyle w;
         tasks := setNth k Settled (tasks w);
         calls := calls w;
         imageResolved := imageResolved w ++ [botMessageId] |}
  | _ => w
  end.

Definition SUGGESTIONS : list jsstring :=
  [ lit "Can you explain this further?";
    lit "Give me another example.";
    lit "Explain this in Urdu." ].

Definition isModel (r : Role) : bool :=
  match r with model => true | user => false end.

Definition getSuggestions (cs : ChatState) : list jsstring :=
  if isLoading cs then []
  else
    match nth_error (messages cs) (List.length (messages cs) - 1) with
    | None => []
    | Some lastMsg =>
        if negb (isModel (role lastMsg))
           || match isError lastMsg with Some b => b | None => false end
        then []
        else if str_eqb (id lastMsg) (lit "welcome") then []
        else SUGGESTIONS
    end.

(** What happens to the component: a user action with the clock readings
    it takes, or the settlement of a pending collaborator call. *)
Inductive Event : Set :=
| SelectSubject (card : nat) (now : Z)
| BackToHome
| ClearChat (confirmed : bool) (now_id now_ts : Z)
| ChangeInput (s : jsstring)
| ChangeStyle (st : ImageStyle)
| Submit (now_id now_ts : Z)
| TutorSettled (k : nat) (outcome : option ApiResponse) (now_id now_ts : Z)
| ImageSettled (k : nat) (imageResult : option jsstring).

Definition isSome {A} (o : option A) : bool :=
  match o with Some _ => true | None => false end.

(** How many of [imageUrl] and [imageError] a message has. *)
Definition imageFields (m : Message) : nat :=
  (if isSome (imageUrl m) then 1 else 0)
  + (if isSome (imageError m) then 1 else 0).

(** How many image steps have resolved for the identifier [b]. *)
Definition resolvedFor (b : jsstring) (w : World) : nat :=
  count_occ jsstring_eq_dec (imageResolved w) b.

(** The home view shows the subject cards, the chat view everything else;
    a settlement needs the matching pending call. *)
Definition enabled (w : World) (e : Event) : bool :=
  match e with
  | SelectSubject card _ =>
      negb (isSome (selectedSubject (chatState w)))
      && (card <? List.length SUBJECTS_CONFIG)%nat
  | BackToHome | ClearChat _ _ _ | ChangeInput _ | ChangeStyle _ | Submit _ _ =>
      isSome (selectedSubject (chatState w))
  | TutorSettled k _ _ _ =>
      match nth_error (tasks w) k with
      | Some (AwaitTutor _ _ _) => true
      | _ => false
      end
  | ImageSettled k _ =>
      match nth_error (tasks w) k with
      | Some (AwaitImage _) => true
      | _ => false
      end
  end.

Definition step (w : World) (e : Event) : World :=
  match e with
  | SelectSubject card now =>
      match nth_error SUBJECTS_CONFIG card with
      | Some config => handleSubjectSelect (config_id config) now w
      | None => w
      end
  | BackToHome => handleBackToHome w
  | ClearChat confirmed now_id now_ts => handleClearChat confirmed now_id now_ts w
  | ChangeInput s => setInputText s w
  | ChangeStyle st => setVisualStyle st w
  | Submit now_id now_ts => handleSendMessage now_id now_ts w
  | TutorSettled k outcome now_id now_ts => tutorSettled k outcome now_id now_ts w
  | ImageSettled k imageResult => imageSettled k imageResult w
  end.

Definition run (w : World) (es : list Event) : World := fold_left step es w.

(** The number of calls of [generateEducationalImage] that the invocation
    [k] of [handleSendMessage] has issued. *)
Definition isImageCallOf (k : nat) (c : nat * Call) : bool :=
  match c with
  | (j, ImageCall _ _ _) => Nat.eqb j k
  | (_, TutorCall _ _ _) => false
  end.

Definition imageCallsOf (k : nat) (w : World) : nat :=
  List.length (filter (isImageCallOf k) (calls w)).



(** Every event of the trace is enabled when its turn comes. *)
Fixpoint feasible (w : World) (es : list Event) : bool :=
  match es with
  | [] => true
  | e :: r => enabled w e && feasible (step w e) r
  end.

(** The states the component can be in: those a sequence of enabled events
    leads to from the initial one. *)
Inductive reachable : World -> Prop :=
| reachable_initial : reachable initial
| reachable_step w e :
    reachable w -> enabled w e = true -> reachable (step w e).

(** *** Invariants of the reachable states *)

(** An invocation that has not passed its text step has issued no image
    call. *)
Definition noEarlyImageCall (w : World) : Prop :=
  forall k,
    match nth_error (tasks w) k with
    | Some (AwaitImage _) | Some Settled => True
    | _ => imageCallsOf k w = 0%nat
    end.

(** A message has no more image fields than image steps have resolved for
    its identifier. *)
Definition imageBudget (w : World) : Prop :=
  forall m, In m (messages (chatState w)) ->
    (imageFields m <= resolvedFor (id m) w)%nat.

End App.

(** ** [components/MessageBubble.tsx]: the audio playback controller *)

Module MessageBubble.
Import GeminiService.

Inductive AudioState : Set := idle | loading | playing.

(** The state of an [AudioContext] that has not been closed. *)
Inductive ContextState : Set := suspended | running.

(** An [AudioBufferSourceNode] after [start()]: playing, stopped by
    [stop()] with its [ended] event still to come, or ended. *)
Inductive SourceStatus : Set := Started | Stopped | Ended.

(** An invocation of [handlePlayAudio] suspended at [await ctx.resume()] or
    at [await generateSpeechFromText(...)]; [Returned] once it is over. *)
Inductive PlayTask : Set := AwaitResume | AwaitSpeech | Returned.

(** The bubble of one message: its [useState] and [useRef] cells, the source
    nodes it has created, its suspended invocations, and counters of what it
    has done (contexts constructed, speech requests, alerts, transitions to
    [playing]). *)
Record Bubble : Set := {
  message : Message;
  audioState : AudioState;
  audioContextRef : option ContextState;
  sourceNodeRef : option nat;
  audioBufferRef : option AudioBuffer;
  sourceNodes : list SourceStatus;
  playTasks : list PlayTask;
  contextsConstructed : nat;
  speechRequests : list jsstring;
  alerts : nat;
  playingTransitions : nat
}.

Definition mount (m : Message) : Bubble :=
  {| message := m; audioState := idle; audioContextRef := None;
     sourceNodeRef := None; audioBufferRef := None; sourceNodes := [];
     playTasks := []; contextsConstructed := 0; speechRequests := [];
     alerts := 0; playingTransitions := 0 |}.

Definition setAudioState (s : AudioState) (b : Bubble) : Bubble :=
  {| message := message b; audioState := s;
     audioContextRef := audioContextRef b; sourceNodeRef := sourceNodeRef b;
     audioBufferRef := audioBufferRef b; sourceNodes := sourceNodes b;
     playTasks := playTasks b; contextsConstructed := contextsConstructed b;
     speechRequests := speechRequests b; alerts := alerts b;
     playingTransitions :=
       match s with
       | playing => S (playingTransitions b)
       | _ => playingTransitions b
       end |}.

Definition setContext (c : option ContextState) (constructed : nat)
  (b : Bubble) : Bubble :=
  {| message := message b; audioState := audioState b;
     audioContextRef := c; sourceNodeRef := sourceNodeRef b;
     audioBufferRef := audioBufferRef b; sourceNodes := sourceNodes b;
     playTasks := playTasks b;
     contextsConstructed := constructed + contextsConstructed b;
     speechRequests := speechRequests b; alerts := alerts b;
     playingTransitions := playingTransitions b |}.

Definition setSources (ref : option nat) (nodes : list SourceStatus)
  (b : Bubble) : Bubble :=
  {| message := message b; audioState := audioState b;
     audioContextRef := audioContextRef b; sourceNodeRef := ref;
     audioBufferRef := audioBufferRef b; sourceNodes := nodes;
     playTasks := playTasks b; contextsConstructed := contextsConstructed b;
     speechRequests := speechRequests b; alerts := alerts b;
     playingTransitions := playingTransitions b |}.

Definition setBuffer (buffer : option AudioBuffer) (b : Bubble) : Bubble :=
  {| message := message b; audioState := audioState b;
     audioContextRef := audioContextRef b; sourceNodeRef := sourceNodeRef b;
     audioBufferRef := buffer; sourceNodes := sourceNodes b;
     playTasks := playTasks b; contextsConstructed := contextsConstructed b;
     speechRequests := speechRequests b; alerts := alerts b;
     playingTransitions := playingTransitions b |}.

Definition setTasks (ts : list PlayTask) (b : Bubble) : Bubble :=
  {| message := message b; audioState := audioState b;
     audioContextRef := audioContextRef b; sourceNodeRef := sourceNodeRef b;
     audioBufferRef := audioBufferRef b; sourceNodes := sourceNodes b;
     playTasks := ts; contextsConstructed := contextsConstructed b;
     speechRequests := speechRequests b; alerts := alerts b;
     playingTransitions := playingTransitions b |}.

Definition requestSpeech (b : Bubble) : Bubble :=
  {| message := message b; audioState := audioState b;
     audioContextRef := audioContextRef b; sourceNodeRef := sourceNodeRef b;
     audioBufferRef := audioBufferRef b; sourceNodes := sourceNodes b;
     playTasks := playTasks b; contextsConstructed := contextsConstructed b;
     speechRequests := speechRequests b ++ [text (message b)];
     alerts := alerts b;
     playingTransitions := playingTransitions b |}.

Definition alert (b : Bubble) : Bubble :=
  {| message := message b; audioState := audioState b;
     audioContextRef := audioContextRef b; sourceNodeRef := sourceNodeRef b;
     audioBufferRef := audioBufferRef b; sourceNodes := sourceNodes b;
     playTasks := playTasks b; contextsConstructed := contextsConstructed b;
     speechRequests := speechRequests b; alerts := S (alerts b);
     playingTransitions := playingTransitions b |}.

(** [source.stop()] *)
Definition stopSource (s : nat) (nodes : list SourceStatus)
  : list SourceStatus :=
  match nth_error nodes s with
  | Some Started => setNth s Stopped nodes
  | _ => nodes
  end.

(** "Create source and play": the new node is started and becomes the
    active one; invocation [k] returns. *)
Definition playBuffer (k : nat) (b : Bubble) : Bubble :=
  let source := List.length (sourceNodes b) in
  let b := setSources (Some source) (sourceNodes b ++ [Started]) b in
  let b := setAudioState playing b in
  setTasks (setNth k Returned (playTasks b)) b.

(** The [catch] block. *)
Definition playbackError (k : nat) (b : Bubble) : Bubble :=
  let b := setAudioState idle b in
  let b := alert b in
  setTasks (setNth k Returned (playTasks b)) b.

(** [handlePlayAudio] from [setAudioState('loading')] to the next [await]
    or to its end, for the invocation [k]. *)
Definition startLoading (k : nat) (b : Bubble) : Bubble :=
  let b := setAudioState loading b in
  match audioBufferRef b with
  | Some _ => playBuffer k b
  | None =>
      let b := requestSpeech b in
      setTasks (setNth k AwaitSpeech (playTasks b)) b
  end.

(** [handlePlayAudio] up to its first [await]; [fresh] is the state in which
    the platform hands out a newly constructed context. *)
Definition handlePlayAudio (fresh : ContextState) (b : Bubble) : Bubble :=
  match audioState b with
  | playing =>
      let b :=
        match sourceNodeRef b with
        | Some s => setSources (sourceNodeRef b) (stopSource s (sourceNodes b)) b
        | None => b
        end in
      setAudioState idle b
  | _ =>
      let b :=
        match audioContextRef b with
        | None => setContext (Some fresh) 1 b
        | Some _ => b
        end in
      let k := List.length (playTasks b) in
      match audioContextRef b with
      | Some suspended => setTasks (playTasks b ++ [AwaitResume]) b
      | _ => startLoading k (setTasks (playTasks b ++ [Returned]) b)
      end
  end.

(** The continuation after [await ctx.resume()]; a rejection leaves the
    function, the [await] being outside the [try]. *)
Definition resumeSettled (k : nat) (resumed : bool) (b : Bubble) : Bubble :=
  match nth_error (playTasks b) k with
  | Some AwaitResume =>
      if resumed then startLoading k (setContext (Some running) 0 b)
      else setTasks (setNth k Returned (playTasks b)) b
  | _ => b
  end.

(** The continuation after [await generateSpeechFromText(message.text)]. *)
Definition speechSettled (k : nat) (base64Audio : option jsstring)
  (b : Bubble) : Bubble :=
  match nth_error (playTasks b) k with
  | Some AwaitSpeech =>
      match base64Audio with
      | Some data =>
          if truthy data then
            match decodePCM data with
            | Ok buffer => playBuffer k (setBuffer (Some buffer) b)
            | Throw _ => playbackError k b
            end
          else playbackError k b
      | None => playbackError k b
      end
  | _ => b
  end.

(** The [onended] callback of the source node [s]. *)
Definition sourceEnded (s : nat) (b : Bubble) : Bubble :=
  match nth_error (sourceNodes b) s with
  | Some Started | Some Stopped =>
      let b := setAudioState idle b in
      setSources None (setNth s Ended (sourceNodes b)) b
  | _ => b
  end.

Inductive PlayEvent : Set :=
| Click (fresh : ContextState)
| ResumeSettled (k : nat) (resumed : bool)
| SpeechSettled (k : nat) (base64Audio : option jsstring)
| SourceEnded (s : nat).

Definition isLoadingAudio (s : AudioState) : bool :=
  match s with loading => true | _ => false end.

(** The button exists for a model message that is not an error and is
    disabled while [audioState === 'loading']. *)
Definition buttonEnabled (b : Bubble) : bool :=
  App.isModel (role (message b))
  && negb (match isError (message b) with Some e => e | None => false end)
  && negb (isLoadingAudio (audioState b)).

Definition playEnabled (b : Bubble) (e : PlayEvent) : bool :=
  match e with
  | Click _ => buttonEnabled b
  | ResumeSettled k _ =>
      match nth_error (playTasks b) k with
      | Some AwaitResume => true
      | _ => false
      end
  | SpeechSettled k _ =>
      match nth_error (playTasks b) k with
      | Some AwaitSpeech => true
      | _ => false
      end
  | SourceEnded s =>
      match nth_error (sourceNodes b) s with
      | Some Started | Some Stopped => true
      | _ => false
      end
  end.

(** A press of the button: [toggle()]. A press on the disabled button does
    not reach the handler. *)
Definition toggle (fresh : ContextState) (b : Bubble) : Bubble :=
  if buttonEnabled b then handlePlayAudio fresh b else b.

Definition playStep (b : Bubble) (e : PlayEvent) : Bubble :=
  match e with
  | Click fresh => toggle fresh b
  | ResumeSettled k resumed => resumeSettled k resumed b
  | SpeechSettled k base64Audio => speechSettled k base64Audio b
  | SourceEnded s => sourceEnded s b
  end.

Definition playRun (b : Bubble) (es : list PlayEvent) : Bubble := fold_left playStep es b.

Fixpoint playFeasible (b : Bubble) (es : list PlayEvent) : bool :=
  match es with
  | [] => true
  | e :: r => playEnabled b e && playFeasible (playStep b e) r
  end.

Inductive reachableBubble (m : Message) : Bubble -> Prop :=
| reachableBubble_mount : reachableBubble m (mount m)
| reachableBubble_step b e :
    reachableBubble m b -> playEnabled b e = true -> reachableBubble m (playStep b e).

(** The source nodes that are playing. *)
Definition activeSources (b : Bubble) : nat :=
  List.length (filter (fun s => match s with Started => true | _ => false end)
                 (sourceNodes b)).

(** The context is constructed when the reference is empty, and the
    reference is never emptied; nothing has playRun before the first press. *)
Definition contextCounted (b : Bubble) : Prop :=
  match audioContextRef b with
  | Some _ => contextsConstructed b = 1%nat
  | None => contextsConstructed b = 0%nat /\ playTasks b = []
  end.

End MessageBubble.

(** ** The PCM format: signed 16-bit samples, little-endian *)

Module PCMFormat.

Definition is_int16 (v : Z) : Prop := (-32768 <= v <= 32767)%Z.

(** The two bytes of a sample in two's complement, low byte first. *)
Definition int16_to_bytes (v : Z) : list N :=
  [Z.to_N (v mod 256); Z.to_N ((v / 256) mod 256)].

Definition encode_samples (samples : list Z) : list N :=
  flat_map int16_to_bytes samples.

End PCMFormat.

(** ** Scenarios: the concrete states and traces the properties are tried on *)

Module Scenarios.
Import GeminiService App.

(** A chat on Physics with a request in flight and a question typed. *)
Definition loadingPhysics : World :=
  {| chatState := {| messages := []; isLoading := true;
                     selectedSubject := Some PHYSICS |};
     inputText := lit "What is gravity?";
     visualStyle := Scientific; tasks := []; calls := [];
     imageResolved := [] |}.

Definition gravityResponse : ApiResponse :=
  {| response_text := Some (lit "Gravity pulls masses towards each other.");
     groundingChunks :=
       Some [ {| web := Some {| web_title := None;
                                web_uri := lit "https://example.org/gravity" |} |};
              {| web := None |} ] |}.

(** A response of the API without text. *)
Definition silentResponse : ApiResponse :=
  {| response_text := None; groundingChunks := None |}.

(** Physics is chosen and a first question is sent. *)
Definition askGravity : list Event :=
  [ SelectSubject 3 1000;
    ChangeInput (lit "What is gravity?");
    Submit 2000 2000 ].

Definition awaitingTutor : World := run initial askGravity.


(** The first reply arrives and the chat is cleared before its image. *)
Definition replyThenClear : list Event :=
  askGravity
  ++ [ TutorSettled 0 (Some gravityResponse) 3000 3000;
       ClearChat true 4000 4000 ].

(** Physics is chosen and the chat is cleared at once. *)
Definition selectThenClear : list Event :=
  [ SelectSubject 3 1000; ClearChat true 2000 2000 ].

(** The clock gives the second reply the identifier of the first; the
    first image succeeds and the second fails. *)
Definition sameIdentifierTwice : list Event :=
  askGravity
  ++ [ TutorSettled 0 (Some gravityResponse) 3000 3000;
       ChangeInput (lit "Why?");
       Submit 3000 3000;
       TutorSettled 1 (Some silentResponse) 3000 3000;
       ImageSettled 0 (Some (lit "data:image/png;base64,AAAA"));
       ImageSettled 1 None ].

(** A tutor reply, as [tutorSettled] builds it. *)
Definition tutorReply : Message :=
  {| id := lit "3001"; role := model;
     text := lit "Gravity pulls masses towards each other.";
     timestamp := 3000; sources := Some []; imageUrl := None;
     imageError := None; isError := None |}.

(** Four samples of speech. *)
Definition speech : jsstring := lit "/38AgP//AQA=".

(** The button is pressed twice while the context, handed out suspended, is
    being resumed; both speech requests then succeed. *)
Definition doublePress : list MessageBubble.PlayEvent :=
  [ MessageBubble.Click MessageBubble.suspended;
    MessageBubble.Click MessageBubble.suspended;
    MessageBubble.ResumeSettled 0 true;
    MessageBubble.ResumeSettled 1 true;
    MessageBubble.SpeechSettled 0 (Some speech);
    MessageBubble.SpeechSettled 1 (Some speech) ].

End Scenarios.

(** ** [services/geminiService]: the image and the speech collaborators *)

Module GeminiCalls.
Import GeminiService.

(** What the code reads of a part of a response: its inline data. *)
Record InlineData : Set := {
  data : option jsstring;
  mimeType : option jsstring
}.

Record Part : Set := { inlineData : option InlineData }.

(** [`${x}`] for [x : string | undefined]. *)
Definition templateValue (o : option jsstring) : jsstring :=
  match o with Some s => s | None => lit "undefined" end.

(** The key of a style in [stylePrompts]: its string value. *)
Definition styleKey (style : ImageStyle) : string :=
  match style with
  | Scientific => "Scientific"
  | Cartoon => "Cartoon"
  | Realistic => "Realistic"
  | Blueprint => "Blueprint"
  | LowPoly => "Low Poly"
  end.

Definition stylePrompts : list (string * string) :=
  [ ("Scientific", "like a scientific 3D model, clean white background, realistic textures, soft studio lighting");
    ("Cartoon", "fun 3D cartoon style, bright colors, exaggerated features, toy-like rendering, soft shadows");
    ("Realistic", "hyper-realistic photo quality, cinematic lighting, highly detailed textures, 8k resolution");
    ("Blueprint", "technical blueprint schematic, blue background with white lines, engineering diagram style");
    ("Low Poly", "low poly art style, geometric shapes, minimal details, vibrant colors") ]%string.

(** [stylePrompts[key]] *)
Fixpoint lookupStyle (key : string) (table : list (string * string))
  : option jsstring :=
  match table with
  | [] => None
  | (k, v) :: r => if String.eqb k key then Some (lit v) else lookupStyle key r
  end.

(** [stylePrompts[style] || stylePrompts['Scientific']] *)
Definition styleDescription (style : ImageStyle) : jsstring :=
  or_else (lookupStyle (styleKey style) stylePrompts)
          (templateValue (lookupStyle "Scientific" stylePrompts)).

(** [refinementResponse.text?.trim() || userQuery] *)
Definition refinedTopic (text : option jsstring) (userQuery : jsstring)
  : jsstring :=
  or_else (option_map trim text) userQuery.

Definition imagePrompt (topic description : jsstring) : jsstring :=
  lit "Create a high-quality, educational illustration of: " ++ topic
  ++ lit ". " ++ [10%N] ++ lit "    The style should be " ++ description
  ++ lit ". Clear details for a student to understand.".

(** The data URL built from the inline data of a part. *)
Definition dataUrl (d : InlineData) : jsstring :=
  lit "data:" ++ or_else (mimeType d) (lit "image/png") ++ lit ";base64,"
  ++ templateValue (data d).

(** The loop over the parts: the first one with inline data, then [break]. *)
Fixpoint firstImage (parts : list Part) : option jsstring :=
  match parts with
  | [] => None
  | part :: rest =>
      match inlineData part with
      | Some d => Some (dataUrl d)
      | None => firstImage rest
      end
  end.

(** [generateEducationalImage] after its two [await]s.  [refinement] is what
    the first API call settled with ([None] when it rejected, otherwise the
    text of the response); [render] gives, for the prompt sent, what the
    second call settles with ([None] when it rejects, otherwise the parts of
    the first candidate, if there are any).  Every rejection ends in the
    [catch] block, which returns null. *)
Definition generateEducationalImage (userQuery : jsstring) (style : ImageStyle)
  (refinement : option (option jsstring))
  (render : jsstring -> option (option (list Part))) : option jsstring :=
  match refinement with
  | None => None
  | Some text =>
      let topic := refinedTopic text userQuery in
      match render (imagePrompt topic (styleDescription style)) with
      | None => None
      | Some None => None
      | Some (Some parts) => firstImage parts
      end
  end.

(** [generateSpeechFromText] after its [await]: [outcome] is [None] when
    the API call rejected, otherwise the parts of the first candidate, if
    there are any.  Only [parts[0]] is read. *)
Definition generateSpeechFromText (outcome : option (option (list Part)))
  : option jsstring :=
  match outcome with
  | Some (Some (part :: _)) =>
      match inlineData part with
      | Some d =>
          match data d with
          | Some s => if truthy s then Some s else None
          | None => None
          end
      | None => None
      end
  | _ => None
  end.

End GeminiCalls.

(** ** [App.tsx]: voice input and the header of the chat view *)

Module AppView.
Import App.

(** The [onresult] callback of the speech recognition:
    [setInputText(prev => (prev ? prev + ' ' : '') + transcript)]. *)
Definition handleTranscript (transcript : jsstring) (w : World) : World :=
  setInputText
    ((if truthy (inputText w) then inputText w ++ lit " " else [])
     ++ transcript) w.

Definition Subject_eqb (a b : Subject) : bool :=
  match a, b with
  | ENGLISH, ENGLISH | URDU, URDU | MATHS, MATHS | PHYSICS, PHYSICS
  | CHEMISTRY, CHEMISTRY | BIOLOGY, BIOLOGY | COMPUTER, COMPUTER
  | GENERAL, GENERAL => true
  | _, _ => false
  end.

(** [SUBJECTS_CONFIG.find(s => s.id === chatState.selectedSubject)] in the
    chat view, where a subject is selected. *)
Definition currentSubjectConfig (selected : Subject) : option SubjectConfig :=
  find (fun s => match config_id s with
                 | Some i => Subject_eqb i selected
                 | None => false
                 end) SUBJECTS_CONFIG.

(** While loading, an image step is not what keeps the indicator on: some
    text step is pending. *)
Definition isAwaitTutor (t : Task) : bool :=
  match t with AwaitTutor _ _ _ => true | _ => false end.

Definition isTutorCall (c : nat * Call) : bool :=
  match c with (_, TutorCall _ _ _) => true | (_, ImageCall _ _ _) => false end.

(** The invariants of the reachable states that the properties below rest
    on. *)
Definition loadingHasRequest (w : World) : Prop :=
  isLoading (chatState w) = true -> existsb isAwaitTutor (tasks w) = true.

Definition textsNonEmpty (w : World) : Prop :=
  Forall (fun m => text m <> []) (messages (chatState w)).

Definition selectionFromCards (w : World) : Prop :=
  forall s, selectedSubject (chatState w) = Some s ->
    exists card config,
      nth_error SUBJECTS_CONFIG card = Some config
      /\ config_id config = Some s.


End AppView.

(** ** [components/MessageBubble.tsx]: teardown *)

Module BubbleTeardown.
Import MessageBubble.

(** What the cleanup of the [useEffect] does on unmount: [stop()] on the
    source the reference holds, [close()] on the context if there is one
    (it is never closed before). *)
Record Teardown : Set := {
  stoppedSource : option nat;
  closedContexts : nat
}.

Definition cleanup (b : Bubble) : Teardown :=
  {| stoppedSource := sourceNodeRef b;
     closedContexts := match audioContextRef b with Some _ => 1 | None => 0 end |}.

(** While playing, the reference holds a source that is playing. *)
Definition playingHasSource (b : Bubble) : Prop :=
  audioState b = playing ->
  exists s, sourceNodeRef b = Some s
            /\ nth_error (sourceNodes b) s = Some Started.

End BubbleTeardown.

(** ** More scenarios *)

Module MoreScenarios.
Import GeminiService GeminiCalls App MessageBubble Scenarios.

(** A response of the image model: a caption, then the picture. *)
Definition captionPart : Part := {| inlineData := None |}.

Definition picturePart : Part :=
  {| inlineData := Some {| data := Some (lit "iVBORw0KGgo=");
                           mimeType := None |} |}.

Definition renderPicture (prompt : jsstring) : option (option (list Part)) :=
  Some (Some [captionPart; picturePart]).

(** Physics is chosen and a question is typed. *)
Definition readyPhysics : World :=
  run initial [SelectSubject 3 1000; ChangeInput (lit "What is gravity?")].

(** The first turn is over, with its image. *)
Definition firstTurnDone : World :=
  run awaitingTutor
    [ TutorSettled 0 (Some gravityResponse) 3000 3000;
      ImageSettled 0 (Some (lit "data:image/png;base64,iVBORw0KGgo=")) ].

(** The message of a student. *)
Definition studentQuestion : Message :=
  {| id := lit "2000"; role := user; text := lit "What is gravity?";
     timestamp := 2000; sources := None; imageUrl := None;
     imageError := None; isError := None |}.

(** The button is pressed and the speech arrives: the bubble plays. *)
Definition pressAndPlay : list PlayEvent :=
  [Click running; SpeechSettled 0 (Some speech)].

(** Then playback is stopped and started again. *)
Definition stopAndReplay : list PlayEvent :=
  [Click running; Click running].


End MoreScenarios.

(** * Properties *)

(** ** Tactics *)

(** The five ranges of [b64char]. *)
Ltac b64char_cases v :=
  unfold b64char;
  destruct (N.ltb_spec v 26);
  [|destruct (N.ltb_spec v 52);
    [|destruct (N.ltb_spec v 62);
      [|destruct (N.eqb_spec v 62)]]].

Ltac compare_all :=
  repeat match goal with
         | |- context [(?a <=? ?b)%N] => destruct (N.leb_spec a b)
         | |- context [(?a =? ?b)%N] => destruct (N.eqb_spec a b)
         end.

(** Case analysis on every [match] of the goal. *)
Ltac split_cases :=
  repeat match goal with
         | |- context [match ?x with _ => _ end] =>
             let E := fresh "E" in destruct x eqn:E; cbn in *
         end.


(** ** Base64: [atob] undoes [btoa] *)

Module Base64Facts.

(** Induction on a list three elements at a time. *)
Lemma list_ind3 {A} (P : list A -> Prop) :
  P [] -> (forall a, P [a]) -> (forall a b, P [a; b]) ->
  (forall a b c l, P l -> P (a :: b :: c :: l)) ->
  forall l, P l.
Proof.
  intros H0 H1 H2 H3.
  fix IH 1. intros [|a [|b [|c l]]];
    [exact H0|exact (H1 a)|exact (H2 a b)|exact (H3 a b c l (IH l))].
Qed.

Lemma b64val_b64char (v : N) : (v < 64)%N -> b64val (b64char v) = Some v.
Proof.
  intros Hv. b64char_cases v; unfold b64val; compare_all; cbn [andb];
    try (f_equal; lia); lia.
Qed.

Lemma b64char_not_space (v : N) : isAsciiWhitespace (b64char v) = false.
Proof.
  b64char_cases v; unfold isAsciiWhitespace; compare_all; cbn [orb];
    try reflexivity; lia.
Qed.

Lemma b64char_not_pad (v : N) : (b64char v =? 61)%N = false.
Proof.
  b64char_cases v; compare_all; try reflexivity; lia.
Qed.

Lemma encodeBytes_no_space (bytes : list N) :
  filter (fun c => negb (isAsciiWhitespace c)) (encodeBytes bytes)
  = encodeBytes bytes.
Proof.
  induction bytes as [|a|a b|a b c l IH] using list_ind3;
    cbn [encodeBytes filter]; rewrite ?b64char_not_space; cbn [negb];
    try reflexivity.
  now rewrite IH.
Qed.

Lemma length_encodeBytes (bytes : list N) :
  Nat.modulo (List.length (encodeBytes bytes)) 4 = 0%nat.
Proof.
  induction bytes as [|a|a b|a b c l IH] using list_ind3; try reflexivity.
  cbn [encodeBytes List.length].
  change (S (S (S (S (List.length (encodeBytes l))))))
    with (4 + List.length (encodeBytes l))%nat.
  rewrite <- Nat.Div0.add_mod_idemp_l. exact IH.
Qed.

Lemma length_unpadded (bytes : list N) :
  Nat.modulo (List.length (unpadded bytes)) 4 <> 1%nat.
Proof.
  induction bytes as [|a|a b|a b c l IH] using list_ind3;
    try (cbn; discriminate).
  cbn [unpadded List.length].
  change (S (S (S (S (List.length (unpadded l))))))
    with (4 + List.length (unpadded l))%nat.
  rewrite <- Nat.Div0.add_mod_idemp_l. exact IH.
Qed.

Lemma stripPadding_app (pre t : jsstring) :
  (2 <= List.length t)%nat ->
  stripPadding (pre ++ t) = pre ++ stripPadding t.
Proof.
  intros Hlen.
  destruct (rev t) as [|c1 [|c2 r]] eqn:Er;
    try (apply (f_equal (@List.length N)) in Er;
         rewrite length_rev in Er; simpl in Er; lia).
  unfold stripPadding. rewrite rev_app_distr, Er. cbn [app].
  assert (Et : t = rev r ++ [c2; c1]).
  { rewrite <- (rev_involutive t), Er. cbn [rev]. now rewrite <- app_assoc. }
  destruct (c1 =? 61)%N; [|reflexivity].
  destruct (c2 =? 61)%N.
  - now rewrite rev_app_distr, rev_involutive.
  - change (c2 :: r ++ rev pre) with ((c2 :: r) ++ rev pre).
    now rewrite rev_app_distr, rev_involutive.
Qed.

Lemma stripPadding_encodeBytes (bytes : list N) :
  stripPadding (encodeBytes bytes) = unpadded bytes.
Proof.
  induction bytes as [|a|a b|a b c l IH] using list_ind3.
  - reflexivity.
  - reflexivity.
  - unfold stripPadding. cbn [encodeBytes unpadded rev app].
    cbn [N.eqb Pos.eqb]. now rewrite b64char_not_pad.
  - cbn [encodeBytes unpadded].
    destruct l as [|x l'].
    + unfold stripPadding. cbn [encodeBytes unpadded rev app].
      now rewrite b64char_not_pad.
    + rewrite <- IH.
      apply (stripPadding_app [_; _; _; _]).
      destruct l' as [|y [|z l'']]; cbn; lia.
Qed.

Lemma sextets_lt (bytes : list N) :
  Forall (fun c => (c < 256)%N) bytes ->
  Forall (fun v => (v < 64)%N) (sextets bytes).
Proof.
  induction bytes as [|a|a b|a b c l IH] using list_ind3; intros H.
  - constructor.
  - inversion_clear H. cbn [sextets]. repeat constructor.
    + apply N.Div0.div_lt_upper_bound. lia.
    + pose proof (N.mod_upper_bound a 4). lia.
  - inversion_clear H as [|? ? Ha H']. inversion_clear H' as [|? ? Hb _].
    cbn [sextets]. repeat constructor.
    + apply N.Div0.div_lt_upper_bound. lia.
    + pose proof (N.mod_upper_bound a 4).
      assert (b / 16 < 16)%N by (apply N.Div0.div_lt_upper_bound; lia). lia.
    + pose proof (N.mod_upper_bound b 16). lia.
  - inversion_clear H as [|? ? Ha H']. inversion_clear H' as [|? ? Hb H''].
    inversion_clear H'' as [|? ? Hc Hl].
    cbn [sextets]. repeat constructor; try (apply IH; exact Hl).
    + apply N.Div0.div_lt_upper_bound. lia.
    + pose proof (N.mod_upper_bound a 4).
      assert (b / 16 < 16)%N by (apply N.Div0.div_lt_upper_bound; lia). lia.
    + pose proof (N.mod_upper_bound b 16).
      assert (c / 64 < 4)%N by (apply N.Div0.div_lt_upper_bound; lia). lia.
    + apply N.mod_upper_bound. lia.
Qed.

Lemma unpadded_sextets (bytes : list N) :
  unpadded bytes = map b64char (sextets bytes).
Proof.
  induction bytes as [|a|a b|a b c l IH] using list_ind3; try reflexivity.
  cbn [unpadded sextets map]. now rewrite IH.
Qed.

Lemma b64vals_b64char (vs : list N) :
  Forall (fun v => (v < 64)%N) vs -> b64vals (map b64char vs) = Some vs.
Proof.
  induction 1 as [|v vs Hv _ IH]; [reflexivity|].
  cbn [map b64vals]. now rewrite (b64val_b64char v Hv), IH.
Qed.

(** Regrouping the bits of three bytes into four 6-bit values and back. *)
Lemma regroup_first (a b : N) :
  (b < 256)%N ->
  (4 * (a / 4) + ((a mod 4) * 16 + b / 16) / 16 = a)%N.
Proof. intros H. zify. Z.to_euclidean_division_equations. lia. Qed.

Lemma regroup_second (a b c : N) :
  (b < 256)%N -> (c < 256)%N ->
  ((((a mod 4) * 16 + b / 16) mod 16) * 16 + ((b mod 16) * 4 + c / 64) / 4
   = b)%N.
Proof. intros Hb Hc. zify. Z.to_euclidean_division_equations. lia. Qed.

Lemma regroup_third (b c : N) :
  (c < 256)%N ->
  ((((b mod 16) * 4 + c / 64) mod 4) * 64 + c mod 64 = c)%N.
Proof. intros H. zify. Z.to_euclidean_division_equations. lia. Qed.

Lemma sextetsToBytes_sextets (bytes : list N) :
  Forall (fun c => (c < 256)%N) bytes ->
  sextetsToBytes (sextets bytes) = bytes.
Proof.
  induction bytes as [|a|a b|a b c l IH] using list_ind3; intros H.
  - reflexivity.
  - cbn [sextets sextetsToBytes]. f_equal.
    pose proof (regroup_first a 0 eq_refl) as E.
    now rewrite N.add_0_r in E.
  - inversion_clear H as [|? ? Ha H']. inversion_clear H' as [|? ? Hb _].
    cbn [sextets sextetsToBytes]. f_equal; [now apply regroup_first|].
    f_equal. pose proof (regroup_second a b 0 Hb eq_refl) as E.
    now rewrite N.add_0_r in E.
  - inversion_clear H as [|? ? Ha H']. inversion_clear H' as [|? ? Hb H''].
    inversion_clear H'' as [|? ? Hc Hl].
    cbn [sextets sextetsToBytes]. rewrite (IH Hl).
    now rewrite regroup_first, regroup_second, regroup_third.
Qed.

(** [atob] undoes the encoding of any sequence of bytes. *)
Lemma atob_encodeBytes (bytes : list N) :
  Forall (fun c => (c < 256)%N) bytes ->
  atob (encodeBytes bytes) = Some bytes.
Proof.
  intros H. unfold atob.
  rewrite encodeBytes_no_space, length_encodeBytes. cbn [Nat.eqb].
  rewrite stripPadding_encodeBytes.
  destruct (Nat.eqb_spec (Nat.modulo (List.length (unpadded bytes)) 4) 1)
    as [E|_]; [now apply length_unpadded in E|].
  rewrite unpadded_sextets, (b64vals_b64char _ (sextets_lt bytes H)).
  cbn [option_map]. now rewrite sextetsToBytes_sextets.
Qed.

Lemma atob_btoa (data encoded : jsstring) :
  btoa data = Some encoded -> atob encoded = Some data.
Proof.
  unfold btoa. destruct (forallb _ data) eqn:E; [|discriminate].
  intros [= <-]. apply atob_encodeBytes.
  apply Forall_forall. intros c Hc.
  rewrite forallb_forall in E. now apply N.ltb_lt, E.
Qed.

End Base64Facts.

(** ** The PCM decoder *)

Module DecoderFacts.
Import GeminiService PCMFormat.

Lemma setNth_middle {A} (l1 l2 : list A) (x y : A) :
  setNth (List.length l1) x (l1 ++ y :: l2) = l1 ++ x :: l2.
Proof.
  induction l1 as [|a l1 IH]; simpl; [reflexivity|].
  now rewrite IH.
Qed.

Lemma int16_of_bytes_to_bytes (v : Z) :
  is_int16 v ->
  int16_of_bytes (Z.to_N (v mod 256)) (Z.to_N ((v / 256) mod 256)) = v.
Proof.
  unfold is_int16, int16_of_bytes. intros Hv.
  rewrite !Z2N.id by (apply Z.mod_pos_bound; lia).
  destruct (Z.ltb_spec (v mod 256 + 256 * ((v / 256) mod 256)) 32768) as [H|H];
    Z.div_mod_to_equations; lia.
Qed.

Lemma int16_elements_encode (samples : list Z) :
  Forall is_int16 samples -> int16_elements (encode_samples samples) = samples.
Proof.
  induction 1 as [|v vs Hv _ IH]; simpl; [reflexivity|].
  now rewrite int16_of_bytes_to_bytes, IH.
Qed.

Lemma length_encode_samples (samples : list Z) :
  List.length (encode_samples samples) = (2 * List.length samples)%nat.
Proof.
  induction samples as [|v vs IH]; simpl; [reflexivity|].
  rewrite IH. lia.
Qed.

Lemma encode_samples_bytes (samples : list Z) :
  map (fun c => (c mod 256)%N) (encode_samples samples) = encode_samples samples.
Proof.
  induction samples as [|v vs IH]; simpl; [reflexivity|].
  rewrite IH. f_equal; [|f_equal]; apply N.mod_small.
  - assert (0 <= v mod 256 < 256)%Z by (apply Z.mod_pos_bound; lia). lia.
  - assert (0 <= (v / 256) mod 256 < 256)%Z by (apply Z.mod_pos_bound; lia). lia.
Qed.

(** The inner loop, started at frame [length ipre] with the frames before it
    already written, writes the next [n] samples and leaves the rest. *)
Lemma fillChannel_from (n : nat) :
  forall (ipre ipost : list Z) (pre post : list Q),
  List.length pre = List.length ipre ->
  (n <= List.length ipost)%nat -> (n <= List.length post)%nat ->
  fold_left
    (fun data i =>
       match nth_error (ipre ++ ipost) (i * 1 + 0) with
       | Some v => setNth i (toFloat v) data
       | None => data
       end)
    (seq (List.length ipre) n) (pre ++ post)
  = pre ++ map toFloat (firstn n ipost) ++ skipn n post.
Proof.
  induction n as [|n IH]; intros ipre ipost pre post Hpre Hi Hp;
    [reflexivity|].
  destruct ipost as [|v ipost]; [simpl in Hi; lia|].
  destruct post as [|d post]; [simpl in Hp; lia|].
  simpl in Hi, Hp. cbn [seq fold_left firstn skipn map].
  rewrite Nat.mul_1_r, Nat.add_0_r.
  rewrite nth_error_app2, Nat.sub_diag by lia. cbn [nth_error].
  rewrite <- Hpre, setNth_middle.
  specialize (IH (ipre ++ [v]) ipost (pre ++ [toFloat v]) post).
  rewrite !length_app in IH. cbn [List.length] in IH.
  rewrite !Nat.add_1_r, <- !app_assoc in IH. cbn [app] in IH.
  rewrite Hpre. apply IH; lia.
Qed.

Lemma fillChannels_mono (int16Data : list Z) :
  fillChannels int16Data 1 (List.length int16Data)
    [repeat 0%Q (List.length int16Data)]
  = [map toFloat int16Data].
Proof.
  unfold fillChannels, fillChannel. cbn [seq fold_left nth_error setNth].
  f_equal.
  pose proof (@fillChannel_from (List.length int16Data) [] int16Data []
                (repeat 0%Q (List.length int16Data))) as H.
  cbn [app List.length] in H. rewrite H by (rewrite ?repeat_length; lia).
  rewrite firstn_all, skipn_all2 by (rewrite repeat_length; lia).
  now rewrite app_nil_r.
Qed.

Lemma toFloat_range (v : Z) :
  is_int16 v -> (-1 <= toFloat v)%Q /\ (toFloat v < 1)%Q.
Proof.
  unfold is_int16, toFloat, Qdiv, Qmult, Qinv, Qle, Qlt. simpl. lia.
Qed.

(** C1, as the code has it: a base64 input that decodes to an odd number of
    bytes makes [decodePCM] throw the [RangeError] of the [Int16Array]
    constructor; no buffer is returned and no byte is dropped. *)
Theorem decodePCM_odd_length_throws (base64Data : jsstring) (bytes : list N) :
  base64ToBytes base64Data = Ok bytes ->
  Nat.odd (List.length bytes) = true ->
  decodePCM base64Data = Throw RangeError.
Proof.
  intros Hb Hodd. unfold decodePCM. rewrite Hb. cbn [bind].
  unfold Int16Array_of_buffer.
  rewrite <- Nat.negb_odd, Hodd. reflexivity.
Qed.

Lemma decodePCM_odd_length_throws_witness :
  base64ToBytes (lit "AAEC") = Ok [0; 1; 2]%N
  /\ decodePCM (lit "AAEC") = Throw RangeError.
Proof.
  split; [reflexivity|].
  apply (@decodePCM_odd_length_throws (lit "AAEC") [0; 1; 2]%N); reflexivity.
Defined.

(** C1 as stated fails: the three bytes 0, 1, 2 are not decoded to the one
    sample of their even-length prefix, the decoder returns no buffer. *)
Lemma decodePCM_odd_length_not_truncated :
  base64ToBytes (lit "AAEC") = Ok [0; 1; 2]%N
  /\ Nat.odd (List.length [0; 1; 2]%N) = true
  /\ ~ (exists buffer, decodePCM (lit "AAEC") = Ok buffer).
Proof.
  split; [reflexivity|]. split; [reflexivity|].
  intros [buffer H]. vm_compute in H. discriminate H.
Qed.

Lemma encode_samples_lt (samples : list Z) :
  Forall (fun c => (c < 256)%N) (encode_samples samples).
Proof.
  induction samples as [|v vs IH]; [constructor|].
  cbn [encode_samples flat_map int16_to_bytes app].
  assert (0 <= v mod 256 < 256)%Z by (apply Z.mod_pos_bound; lia).
  assert (0 <= (v / 256) mod 256 < 256)%Z by (apply Z.mod_pos_bound; lia).
  repeat constructor; try lia. exact IH.
Qed.

(** What [decodePCM] returns for the samples [samples]. *)
Lemma decodePCM_of_encoding (base64Data : jsstring) (samples : list Z) :
  Forall is_int16 samples ->
  samples <> [] ->
  atob base64Data = Some (encode_samples samples) ->
  decodePCM base64Data
  = Ok {| numberOfChannels := 1;
          frameLength := List.length samples;
          sampleRate := 24000;
          channelData := [map (fun v => (inject_Z v / 32768)%Q) samples] |}.
Proof.
  intros Hrange Hne Hatob.
  unfold decodePCM, base64ToBytes. rewrite Hatob, encode_samples_bytes.
  cbn [bind]. unfold Int16Array_of_buffer.
  rewrite length_encode_samples, Nat.even_mul. cbn [Nat.even orb bind].
  rewrite int16_elements_encode by assumption.
  rewrite Nat.div_1_r. unfold createBuffer.
  destruct samples as [|v vs]; [congruence|].
  cbn [List.length Nat.leb andb Z.leb Z.compare Pos.compare Pos.compare_cont
       bind numberOfChannels frameLength sampleRate channelData].
  change (1 <=? 32)%nat with true. cbn [andb bind numberOfChannels
    frameLength GeminiService.sampleRate channelData].
  do 2 f_equal.
  exact (fillChannels_mono (v :: vs)).
Qed.

(** C2, for at least one sample: the [N >= 1] signed 16-bit samples
    [samples], laid out little-endian, have a base64 encoding; the decoder
    turns this encoding, and every other base64 input that stands for the
    same bytes, into one channel of [N] frames at 24000 Hz whose samples are
    the given ones divided by 32768, all of them in [-1, 1). *)
Theorem decodePCM_samples (samples : list Z) :
  Forall is_int16 samples ->
  samples <> [] ->
  let decoded :=
    {| numberOfChannels := 1;
       frameLength := List.length samples;
       sampleRate := 24000;
       channelData := [map (fun v => (inject_Z v / 32768)%Q) samples] |} in
  btoa (encode_samples samples) = Some (encodeBytes (encode_samples samples))
  /\ decodePCM (encodeBytes (encode_samples samples)) = Ok decoded
  /\ (forall base64Data,
        atob base64Data = Some (encode_samples samples) ->
        decodePCM base64Data = Ok decoded)
  /\ Forall (fun x => (-1 <= x)%Q /\ (x < 1)%Q)
            (map (fun v => (inject_Z v / 32768)%Q) samples).
Proof.
  intros Hrange Hne decoded.
  pose proof (encode_samples_lt samples) as Hlt.
  split; [|split; [|split]].
  - unfold btoa.
    replace (forallb _ (encode_samples samples)) with true; [reflexivity|].
    symmetry. apply forallb_forall. intros c Hc. apply N.ltb_lt.
    revert c Hc. now apply Forall_forall.
  - apply decodePCM_of_encoding; try assumption.
    now apply Base64Facts.atob_encodeBytes.
  - intros base64Data. now apply decodePCM_of_encoding.
  - apply Forall_map. revert Hrange. apply Forall_impl.
    intros v Hv. exact (toFloat_range v Hv).
Qed.

Lemma decodePCM_samples_witness :
  encodeBytes (encode_samples [32767; -32768; -1; 1]%Z) = lit "/38AgP//AQA="
  /\ decodePCM (lit "/38AgP//AQA=")
     = Ok {| numberOfChannels := 1;
             frameLength := 4;
             sampleRate := 24000;
             channelData :=
               [map (fun v => (inject_Z v / 32768)%Q)
                    [32767; -32768; -1; 1]%Z] |}
  /\ Forall (fun x => (-1 <= x)%Q /\ (x < 1)%Q)
            (map (fun v => (inject_Z v / 32768)%Q) [32767; -32768; -1; 1]%Z).
Proof.
  assert (R : Forall is_int16 [32767; -32768; -1; 1]%Z)
    by (repeat constructor; unfold is_int16; lia).
  assert (Hne : [32767; -32768; -1; 1]%Z <> []) by discriminate.
  destruct (@decodePCM_samples [32767; -32768; -1; 1]%Z R Hne)
    as (_ & H2 & _ & H4).
  split; [reflexivity|]. split; [exact H2|exact H4].
Defined.

(** C2 as stated fails for [N = 0]: the input that encodes no sample is not
    decoded to a buffer of zero frames, [createBuffer] throws. *)
Lemma decodePCM_no_samples_throws :
  Forall is_int16 []
  /\ atob (lit "") = Some (encode_samples [])
  /\ decodePCM (lit "") = Throw NotSupportedError
  /\ ~ (exists buffer, decodePCM (lit "") = Ok buffer).
Proof.
  split; [constructor|]. split; [reflexivity|]. split; [reflexivity|].
  intros [buffer H]. vm_compute in H. discriminate H.
Qed.

End DecoderFacts.

(** ** The conversation orchestrator *)

Module AppFacts.
Import GeminiService App Scenarios.

Lemma trimStart_whitespace (s : jsstring) :
  Forall (fun c => isWhiteSpace c = true) s -> trimStart s = [].
Proof.
  induction 1 as [|c r Hc _ IH]; simpl; [reflexivity|].
  now rewrite Hc.
Qed.

Lemma trim_whitespace (s : jsstring) :
  Forall (fun c => isWhiteSpace c = true) s -> trim s = [].
Proof.
  intros H. unfold trim, trimEnd. now rewrite (trimStart_whitespace s H).
Qed.

Lemma trimStart_whitespace_inv (s : jsstring) :
  Forall (fun c => isWhiteSpace c = true) (trimStart s) ->
  Forall (fun c => isWhiteSpace c = true) s.
Proof.
  induction s as [|c r IH]; cbn [trimStart]; [trivial|].
  destruct (isWhiteSpace c) eqn:Hc; [|trivial].
  intros H. constructor; auto.
Qed.

Lemma trimStart_empty_inv (s : jsstring) :
  trimStart s = [] -> Forall (fun c => isWhiteSpace c = true) s.
Proof.
  intros H. apply trimStart_whitespace_inv. rewrite H. constructor.
Qed.

(** [!inputText.trim()] holds exactly for the prompts that are empty or
    made of white space only. *)
Lemma trim_empty_iff (s : jsstring) :
  truthy (trim s) = false <-> Forall (fun c => isWhiteSpace c = true) s.
Proof.
  split.
  - unfold trim, trimEnd. intros H.
    destruct (rev (trimStart (rev (trimStart s)))) as [|c r] eqn:E;
      [|discriminate H].
    apply (f_equal (@rev N)) in E. rewrite rev_involutive in E. cbn in E.
    apply trimStart_empty_inv, Forall_rev in E. rewrite rev_involutive in E.
    now apply trimStart_whitespace_inv.
  - intros H. now rewrite (trim_whitespace s H).
Qed.

(** C5: a send with an empty or whitespace-only prompt, or while a request
    is in flight, or with no subject selected, leaves the whole state as it
    is: the messages, the loading flag, the subject, the pending calls and
    the log of collaborator calls. *)
Theorem send_blocked_is_noop (w : World) (now_id now_ts : Z) :
  Forall (fun c => isWhiteSpace c = true) (inputText w)
  \/ isLoading (chatState w) = true
  \/ selectedSubject (chatState w) = None ->
  step w (Submit now_id now_ts) = w
  /\ messages (chatState (step w (Submit now_id now_ts))) = messages (chatState w)
  /\ isLoading (chatState (step w (Submit now_id now_ts))) = isLoading (chatState w)
  /\ selectedSubject (chatState (step w (Submit now_id now_ts)))
     = selectedSubject (chatState w)
  /\ calls (step w (Submit now_id now_ts)) = calls w.
Proof.
  intros H.
  assert (E : step w (Submit now_id now_ts) = w).
  { cbn [step]. unfold handleSendMessage.
    destruct (selectedSubject (chatState w)) as [subject|]; [|reflexivity].
    destruct H as [H|[H|H]]; [| |discriminate H].
    - now rewrite (trim_whitespace _ H).
    - rewrite H. now rewrite orb_true_r. }
  rewrite E. repeat split.
Qed.

Lemma send_blocked_is_noop_witness :
  step (setInputText (lit "  ") loadingPhysics) (Submit 5 5)
  = setInputText (lit "  ") loadingPhysics
  /\ step loadingPhysics (Submit 5 5) = loadingPhysics
  /\ step (setInputText (lit "What is gravity?") initial) (Submit 5 5)
     = setInputText (lit "What is gravity?") initial.
Proof.
  split; [|split].
  - apply (@send_blocked_is_noop (setInputText (lit "  ") loadingPhysics) 5 5).
    left. repeat constructor.
  - apply (@send_blocked_is_noop loadingPhysics 5 5). right; left. reflexivity.
  - apply (@send_blocked_is_noop
             (setInputText (lit "What is gravity?") initial) 5 5).
    right; right. reflexivity.
Defined.

Lemma nth_error_setNth_same {A} (l : list A) (k : nat) (x y : A) :
  nth_error l k = Some y -> nth_error (setNth k x l) k = Some x.
Proof.
  revert k. induction l as [|a l IH]; intros [|k] H; simpl in *;
    try discriminate; auto.
Qed.

Lemma nth_error_setNth_other {A} (l : list A) (k j : nat) (x : A) :
  j <> k -> nth_error (setNth k x l) j = nth_error l j.
Proof.
  revert k j. induction l as [|a l IH]; intros [|k] [|j] H; simpl;
    try reflexivity; try congruence.
  apply IH. congruence.
Qed.


(** A settled invocation stays settled: no event resumes it. *)
Lemma settled_is_final (w : World) (k : nat) (e : Event) :
  nth_error (tasks w) k = Some Settled ->
  nth_error (tasks (step w e)) k = Some Settled.
Proof.
  intros H. destruct e as [card now| |c n1 n2|s|st|n1 n2|j o n1 n2|j r]; cbn [step].
  - destruct (nth_error SUBJECTS_CONFIG card); exact H.
  - exact H.
  - unfold handleClearChat.
    destruct (selectedSubject (chatState w)); [destruct c|]; exact H.
  - exact H.
  - exact H.
  - unfold handleSendMessage.
    destruct (selectedSubject (chatState w)); [|exact H].
    destruct (_ || _); [exact H|]. cbn [tasks].
    rewrite nth_error_app1; [exact H|].
    apply nth_error_Some. congruence.
  - unfold tutorSettled.
    destruct (nth_error (tasks w) j) as [[ut sj sty|b|]|] eqn:Ej; try exact H.
    assert (k <> j) by (intros ->; congruence).
    destruct (generateTutorResponse o); cbn [tasks];
      now rewrite nth_error_setNth_other.
  - unfold imageSettled.
    destruct (nth_error (tasks w) j) as [[ut sj sty|b|]|] eqn:Ej; try exact H.
    assert (k <> j) by (intros ->; congruence).
    cbn [tasks]. now rewrite nth_error_setNth_other.
Qed.

Lemma settled_forever (es : list Event) (w : World) (k : nat) :
  nth_error (tasks w) k = Some Settled ->
  nth_error (tasks (run w es)) k = Some Settled.
Proof.
  revert w. induction es as [|e es IH]; intros w H; [exact H|].
  apply IH. now apply settled_is_final.
Qed.

Lemma reachable_run (es : list Event) (w : World) :
  reachable w -> feasible w es = true -> reachable (run w es).
Proof.
  revert w. induction es as [|e es IH]; intros w Hw Hf; [exact Hw|].
  cbn [feasible] in Hf. apply andb_prop in Hf as [He Hf].
  apply IH; [now apply reachable_step|exact Hf].
Qed.

Lemma count_image_snoc (k : nat) (c : nat * Call) (cs : list (nat * Call)) :
  List.length (filter (isImageCallOf k) (cs ++ [c]))
  = (List.length (filter (isImageCallOf k) cs)
     + if isImageCallOf k c then 1 else 0)%nat.
Proof.
  rewrite filter_app, length_app. cbn [filter].
  now destruct (isImageCallOf k c).
Qed.

Lemma noEarlyImageCall_step (w : World) (e : Event) :
  noEarlyImageCall w -> noEarlyImageCall (step w e).
Proof.
  intros J.
  destruct e as [card now| |c n1 n2|s|st|n1 n2|j o n1 n2|j r]; cbn [step].
  - destruct (nth_error SUBJECTS_CONFIG card); exact J.
  - exact J.
  - unfold handleClearChat.
    destruct (selectedSubject (chatState w)); [destruct c|]; exact J.
  - exact J.
  - exact J.
  - unfold handleSendMessage.
    destruct (selectedSubject (chatState w)) as [subject|]; [|exact J].
    destruct (_ || _); [exact J|].
    intros k. specialize (J k). unfold imageCallsOf in *. cbn [tasks calls].
    rewrite count_image_snoc. cbn [isImageCallOf]. rewrite Nat.add_0_r.
    destruct (Nat.lt_ge_cases k (List.length (tasks w))) as [Hlt|Hge].
    + now rewrite nth_error_app1.
    + assert (Hn : nth_error (tasks w) k = None) by now apply nth_error_None.
      rewrite Hn in J. rewrite nth_error_app2 by exact Hge.
      destruct (k - List.length (tasks w))%nat as [|[|n]]; exact J.
  - unfold tutorSettled.
    destruct (nth_error (tasks w) j) as [[ut sj sty|b|]|] eqn:Ej; try exact J.
    destruct (generateTutorResponse o); intros k; specialize (J k);
      unfold imageCallsOf in *; cbn [tasks calls].
    + rewrite count_image_snoc. cbn [isImageCallOf].
      destruct (Nat.eq_dec k j) as [->|Hne].
      * erewrite nth_error_setNth_same by exact Ej; exact I.
      * rewrite nth_error_setNth_other by exact Hne.
        apply Nat.eqb_neq in Hne. rewrite Nat.eqb_sym, Hne, Nat.add_0_r.
        exact J.
    + destruct (Nat.eq_dec k j) as [->|Hne].
      * erewrite nth_error_setNth_same by exact Ej; exact I.
      * now rewrite nth_error_setNth_other.
  - unfold imageSettled.
    destruct (nth_error (tasks w) j) as [[ut sj sty|b|]|] eqn:Ej; try exact J.
    intros k. specialize (J k). cbn [tasks].
    destruct (Nat.eq_dec k j) as [->|Hne].
    + erewrite nth_error_setNth_same by exact Ej; exact I.
    + now rewrite nth_error_setNth_other.
Qed.

Lemma reachable_noEarlyImageCall (w : World) :
  reachable w -> noEarlyImageCall w.
Proof.
  induction 1 as [|w e _ IH _].
  - intros [|k]; reflexivity.
  - now apply noEarlyImageCall_step.
Qed.

(** A settled invocation issues no further call. *)
Lemma settled_calls_no_image (w : World) (k : nat) (e : Event) :
  nth_error (tasks w) k = Some Settled ->
  imageCallsOf k (step w e) = imageCallsOf k w.
Proof.
  intros H.
  destruct e as [card now| |c n1 n2|s|st|n1 n2|j o n1 n2|j r]; cbn [step].
  - now destruct (nth_error SUBJECTS_CONFIG card).
  - reflexivity.
  - unfold handleClearChat.
    now destruct (selectedSubject (chatState w)); [destruct c|].
  - reflexivity.
  - reflexivity.
  - unfold handleSendMessage.
    destruct (selectedSubject (chatState w)) as [subject|]; [|reflexivity].
    destruct (_ || _); [reflexivity|].
    unfold imageCallsOf. cbn [calls]. rewrite count_image_snoc.
    cbn [isImageCallOf]. now rewrite Nat.add_0_r.
  - unfold tutorSettled.
    destruct (nth_error (tasks w) j) as [[ut sj sty|b|]|] eqn:Ej; try reflexivity.
    destruct (generateTutorResponse o); [|reflexivity].
    unfold imageCallsOf. cbn [calls]. rewrite count_image_snoc.
    cbn [isImageCallOf].
    assert (Hne : j <> k) by (intros ->; congruence).
    apply Nat.eqb_neq in Hne. now rewrite Hne, Nat.add_0_r.
  - unfold imageSettled.
    now destruct (nth_error (tasks w) j) as [[ut sj sty|b|]|].
Qed.

Lemma settled_no_image_forever (es : list Event) (w : World) (k : nat) :
  nth_error (tasks w) k = Some Settled ->
  imageCallsOf k (run w es) = imageCallsOf k w.
Proof.
  revert w. induction es as [|e es IH]; intros w H; [reflexivity|].
  cbn [run fold_left]. fold (run (step w e) es).
  rewrite IH by now apply settled_is_final.
  now apply settled_calls_no_image.
Qed.

(** C4: when the text collaborator fails for a pending send, its
    continuation appends exactly one message, a model message with
    [isError = true] and the fixed apology, resets [isLoading] and issues no
    collaborator call; the send is then over, and whatever happens next it
    has not called and never calls the image collaborator. *)
Theorem tutor_failure_appends_error (w : World) (k : nat)
  (userText : jsstring) (subject : Subject) (style : ImageStyle)
  (outcome : option ApiResponse) (now_id now_ts : Z) :
  reachable w ->
  nth_error (tasks w) k = Some (AwaitTutor userText subject style) ->
  generateTutorResponse outcome = None ->
  let w' := step w (TutorSettled k outcome now_id now_ts) in
  (exists errorMessage,
     messages (chatState w') = messages (chatState w) ++ [errorMessage]
     /\ role errorMessage = model
     /\ isError errorMessage = Some true
     /\ text errorMessage = ERROR_TEXT
     /\ imageUrl errorMessage = None /\ imageError errorMessage = None)
  /\ isLoading (chatState w') = false
  /\ selectedSubject (chatState w') = selectedSubject (chatState w)
  /\ calls w' = calls w
  /\ (forall es, nth_error (tasks (run w' es)) k = Some Settled)
  /\ (forall es, imageCallsOf k (run w' es) = 0%nat).
Proof.
  intros Hw Hk Hfail w'.
  assert (Hs : nth_error (tasks w') k = Some Settled).
  { subst w'. cbn [step]. unfold tutorSettled. rewrite Hk, Hfail. cbn [tasks].
    eapply nth_error_setNth_same; eassumption. }
  assert (Hc : calls w' = calls w).
  { subst w'. cbn [step]. unfold tutorSettled. now rewrite Hk, Hfail. }
  split; [|split; [|split; [|split; [|split]]]].
  - subst w'. cbn [step]. unfold tutorSettled. rewrite Hk, Hfail.
    cbn [chatState messages]. eexists. repeat split.
  - subst w'. cbn [step]. unfold tutorSettled. now rewrite Hk, Hfail.
  - subst w'. cbn [step]. unfold tutorSettled. now rewrite Hk, Hfail.
  - exact Hc.
  - intros es. now apply settled_forever.
  - intros es. rewrite settled_no_image_forever by exact Hs.
    unfold imageCallsOf. rewrite Hc. fold (imageCallsOf k w).
    pose proof (reachable_noEarlyImageCall w Hw k) as J. now rewrite Hk in J.
Qed.

Lemma tutor_failure_appends_error_witness :
  (exists errorMessage,
     messages (chatState (step awaitingTutor (TutorSettled 0 None 3000 3000)))
     = messages (chatState awaitingTutor) ++ [errorMessage]
     /\ role errorMessage = model
     /\ isError errorMessage = Some true
     /\ text errorMessage = ERROR_TEXT
     /\ imageUrl errorMessage = None /\ imageError errorMessage = None)
  /\ isLoading (chatState (step awaitingTutor (TutorSettled 0 None 3000 3000)))
     = false
  /\ selectedSubject (chatState (step awaitingTutor (TutorSettled 0 None 3000 3000)))
     = selectedSubject (chatState awaitingTutor)
  /\ calls (step awaitingTutor (TutorSettled 0 None 3000 3000))
     = calls awaitingTutor
  /\ (forall es,
        nth_error (tasks (run (step awaitingTutor (TutorSettled 0 None 3000 3000)) es)) 0
        = Some Settled)
  /\ (forall es,
        imageCallsOf 0 (run (step awaitingTutor (TutorSettled 0 None 3000 3000)) es)
        = 0%nat).
Proof.
  apply (@tutor_failure_appends_error awaitingTutor 0 (lit "What is gravity?")
           PHYSICS Scientific None 3000 3000).
  - apply reachable_run; [constructor|reflexivity].
  - reflexivity.
  - reflexivity.
Defined.

Lemma or_else_truthy (o : option jsstring) (d : jsstring) :
  d <> [] -> or_else o d <> [].
Proof.
  intros Hd. unfold or_else. destruct o as [[|c s]|]; simpl; congruence.
Qed.

(** C10: when the text step of a pending send succeeds, the text of the
    tutor response is the fixed fallback if the API response has no text or
    an empty one, it is never empty, and it is the text of the one message
    appended, a model message that is not an error. *)
Theorem tutor_text_never_empty (w : World) (k : nat)
  (userText : jsstring) (subject : Subject) (style : ImageStyle)
  (response : ApiResponse) (now_id now_ts : Z) :
  nth_error (tasks w) k = Some (AwaitTutor userText subject style) ->
  let w' := step w (TutorSettled k (Some response) now_id now_ts) in
  exists result botMessage,
    generateTutorResponse (Some response) = Some result
    /\ (response_text response = None \/ response_text response = Some [] ->
        result_text result = NO_ANSWER)
    /\ result_text result <> []
    /\ messages (chatState w') = messages (chatState w) ++ [botMessage]
    /\ role botMessage = model
    /\ isError botMessage = None
    /\ text botMessage = result_text result
    /\ text botMessage <> [].
Proof.
  intros Hk w'. subst w'. cbn [step]. unfold tutorSettled. rewrite Hk.
  cbn [generateTutorResponse chatState messages].
  do 2 eexists. split; [reflexivity|].
  cbn [result_text role isError text].
  assert (Hne : or_else (response_text response) NO_ANSWER <> [])
    by (apply or_else_truthy; discriminate).
  repeat split; try assumption.
  intros [H|H]; rewrite H; reflexivity.
Qed.

Lemma tutor_text_never_empty_witness :
  exists result botMessage,
    generateTutorResponse (Some silentResponse) = Some result
    /\ (response_text silentResponse = None
        \/ response_text silentResponse = Some [] ->
        result_text result = NO_ANSWER)
    /\ result_text result <> []
    /\ messages (chatState (step awaitingTutor
                              (TutorSettled 0 (Some silentResponse) 3000 3000)))
       = messages (chatState awaitingTutor) ++ [botMessage]
    /\ role botMessage = model
    /\ isError botMessage = None
    /\ text botMessage = result_text result
    /\ text botMessage <> [].
Proof.
  apply (@tutor_text_never_empty awaitingTutor 0 (lit "What is gravity?")
           PHYSICS Scientific silentResponse 3000 3000).
  reflexivity.
Defined.

(** *** The late image merge *)

Lemma str_eqb_refl (a : jsstring) : str_eqb a a = true.
Proof. unfold str_eqb. now destruct (jsstring_eq_dec a a). Qed.

Lemma str_eqb_eq (a b : jsstring) : str_eqb a b = true <-> a = b.
Proof.
  unfold str_eqb. destruct (jsstring_eq_dec a b); split; congruence.
Qed.

Lemma mergeImage_id (b : jsstring) (r : option jsstring) (m : Message) :
  id (mergeImage b r m) = id m.
Proof.
  unfold mergeImage. now destruct (str_eqb (id m) b), (truthy_opt r).
Qed.

Lemma mergeImage_other (b : jsstring) (r : option jsstring) (m : Message) :
  id m <> b -> mergeImage b r m = m.
Proof.
  intros H. unfold mergeImage.
  destruct (str_eqb (id m) b) eqn:E; [|reflexivity].
  apply str_eqb_eq in E. contradiction.
Qed.




Lemma mergeImage_fields (b : jsstring) (r : option jsstring) (m : Message) :
  id m = b -> (imageFields (mergeImage b r m) <= S (imageFields m))%nat.
Proof.
  intros <-. unfold mergeImage, imageFields. rewrite str_eqb_refl.
  destruct (truthy_opt r) eqn:Hr; cbn [imageUrl imageError isSome].
  - destruct r; [|discriminate Hr]. cbn [isSome].
    destruct (isSome (imageUrl m)), (isSome (imageError m)); lia.
  - destruct (isSome (imageUrl m)), (isSome (imageError m)); lia.
Qed.

Lemma all_append (P : Message -> Prop) (m : Message) (ms : list Message) :
  P m -> (forall x, In x ms -> P x) -> forall x, In x (ms ++ [m]) -> P x.
Proof.
  intros H0 H x Hx. apply in_app_or in Hx as [Hx|[<-|[]]]; auto.
Qed.

Lemma imageBudget_step (w : World) (e : Event) :
  imageBudget w -> imageBudget (step w e).
Proof.
  intros B.
  destruct e as [card now| |c n1 n2|s|st|n1 n2|j o n1 n2|j r]; cbn [step].
  - destruct (nth_error SUBJECTS_CONFIG card); [|exact B].
    intros m [<-|[]]. cbn. lia.
  - intros m [].
  - unfold handleClearChat.
    destruct (selectedSubject (chatState w)); [destruct c|]; try exact B.
    intros m [<-|[]]. cbn. lia.
  - exact B.
  - exact B.
  - unfold handleSendMessage.
    destruct (selectedSubject (chatState w)); [|exact B].
    destruct (_ || _); [exact B|].
    unfold imageBudget, resolvedFor in *. cbn [chatState messages imageResolved].
    apply all_append; [cbn; lia|exact B].
  - unfold tutorSettled.
    destruct (nth_error (tasks w) j) as [[ut sj sty|b|]|]; try exact B.
    destruct (generateTutorResponse o);
      unfold imageBudget, resolvedFor in *;
      cbn [chatState messages imageResolved];
      (apply all_append; [cbn; lia|exact B]).
  - unfold imageSettled.
    destruct (nth_error (tasks w) j) as [[ut sj sty|b|]|]; try exact B.
    intros m Hm. cbn [chatState messages] in Hm.
    apply in_map_iff in Hm as (m0 & <- & Hm0).
    specialize (B m0 Hm0). unfold resolvedFor in *. cbn [imageResolved].
    rewrite count_occ_app, mergeImage_id. cbn [count_occ].
    destruct (jsstring_eq_dec b (id m0)) as [E|E].
    + pose proof (mergeImage_fields b r m0 (eq_sym E)). lia.
    + rewrite mergeImage_other by congruence. lia.
Qed.

Lemma reachable_imageBudget (w : World) : reachable w -> imageBudget w.
Proof.
  induction 1 as [|w e _ IH _]; [intros m []|now apply imageBudget_step].
Qed.

Lemma imageFields_zero (m : Message) :
  imageFields m = 0%nat -> imageUrl m = None /\ imageError m = None.
Proof.
  unfold imageFields. destruct (imageUrl m), (imageError m); cbn; intros H;
    try discriminate; auto.
Qed.

Lemma imageFields_one (m : Message) :
  (imageFields m <= 1)%nat -> imageUrl m = None \/ imageError m = None.
Proof.
  unfold imageFields. destruct (imageUrl m), (imageError m); cbn; intros H;
    auto; lia.
Qed.

Lemma mergeImage_others (b : jsstring) (r : option jsstring)
  (ms : list Message) :
  ~ In b (map id ms) -> map (mergeImage b r) ms = ms.
Proof.
  induction ms as [|m ms IH]; cbn [map In]; intros H; [reflexivity|].
  rewrite mergeImage_other, IH; tauto || (intros E; apply H; now left).
Qed.

Lemma occurs_once_split (b : jsstring) (ms : list Message) :
  count_occ jsstring_eq_dec (map id ms) b = 1%nat ->
  exists pre m post,
    ms = pre ++ m :: post /\ id m = b
    /\ ~ In b (map id pre) /\ ~ In b (map id post).
Proof.
  induction ms as [|m ms IH]; cbn [map count_occ]; [discriminate|].
  destruct (jsstring_eq_dec (id m) b) as [E|E]; intros H.
  - exists [], m, ms. repeat split; auto.
    apply (count_occ_not_In jsstring_eq_dec). lia.
  - destruct (IH H) as (pre & x & post & -> & Hx & Hpre & Hpost).
    exists (m :: pre), x, post. repeat split; auto.
    cbn [map In]. tauto.
Qed.

(** *** The null image result *)







(** C6, as the code has it: in every reachable state a message whose
    identifier has had no image step resolved has neither [imageUrl] nor
    [imageError], and no message has both as long as no identifier has been
    resolved twice; the merge of an image result keeps the length of the
    list and the order of its identifiers, leaves every message with
    another identifier as it is and patches those with the reply's
    identifier in place: none if the reply is no longer in the list,
    exactly one if its identifier occurs once. *)
Theorem image_merge_in_place (w : World) :
  reachable w ->
  (forall m, In m (messages (chatState w)) -> ~ In (id m) (imageResolved w) ->
     imageUrl m = None /\ imageError m = None)
  /\ (NoDup (imageResolved w) ->
      forall m, In m (messages (chatState w)) ->
        imageUrl m = None \/ imageError m = None)
  /\ (forall k b r, nth_error (tasks w) k = Some (AwaitImage b) ->
      let ms := messages (chatState w) in
      let ms' := messages (chatState (step w (ImageSettled k r))) in
      List.length ms' = List.length ms
      /\ map id ms' = map id ms
      /\ (forall i m, nth_error ms i = Some m -> id m <> b ->
            nth_error ms' i = Some m)
      /\ (forall i m, nth_error ms i = Some m -> id m = b ->
            nth_error ms' i = Some (mergeImage b r m))
      /\ (~ In b (map id ms) -> ms' = ms)
      /\ (count_occ jsstring_eq_dec (map id ms) b = 1%nat ->
          exists pre m post,
            ms = pre ++ m :: post
            /\ ms' = pre ++ mergeImage b r m :: post
            /\ id m = b)).
Proof.
  intros Hw. pose proof (reachable_imageBudget w Hw) as B.
  split; [|split].
  - intros m Hm Hnot. apply imageFields_zero.
    specialize (B m Hm). unfold resolvedFor in B.
    rewrite (proj1 (count_occ_not_In jsstring_eq_dec _ _) Hnot) in B. lia.
  - intros Hnd m Hm. apply imageFields_one.
    specialize (B m Hm). unfold resolvedFor in B.
    pose proof (proj1 (NoDup_count_occ jsstring_eq_dec _) Hnd (id m)). lia.
  - intros k b r Hk ms ms'.
    assert (E : ms' = map (mergeImage b r) ms).
    { subst ms' ms. cbn [step]. unfold imageSettled. now rewrite Hk. }
    rewrite E. split; [apply length_map|].
    split; [rewrite map_map; apply map_ext; intros m; apply mergeImage_id|].
    split; [|split; [|split]].
    + intros i m Hi Hne. rewrite nth_error_map, Hi. cbn [option_map].
      now rewrite mergeImage_other.
    + intros i m Hi _. now rewrite nth_error_map, Hi.
    + apply mergeImage_others.
    + intros Hc. destruct (occurs_once_split b ms Hc)
        as (pre & m & post & Hms & Hm & Hpre & Hpost).
      exists pre, m, post. split; [exact Hms|]. split; [|exact Hm].
      rewrite Hms, map_app. cbn [map].
      now rewrite (mergeImage_others b r pre Hpre),
                  (mergeImage_others b r post Hpost).
Qed.

Lemma image_merge_in_place_witness :
  let w := step awaitingTutor (TutorSettled 0 (Some gravityResponse) 3000 3000) in
  (forall m, In m (messages (chatState w)) ->
     imageUrl m = None \/ imageError m = None)
  /\ exists pre m post,
       messages (chatState w) = pre ++ m :: post
       /\ messages (chatState (step w (ImageSettled 0 None)))
          = pre ++ mergeImage (lit "3001") None m :: post
       /\ id m = lit "3001".
Proof.
  intros w.
  assert (Hw : reachable w).
  { apply reachable_step; [|reflexivity].
    apply reachable_run; [constructor|reflexivity]. }
  destruct (image_merge_in_place w Hw) as (_ & H2 & H3).
  split.
  - apply H2. constructor.
  - destruct (H3 0%nat (lit "3001") None eq_refl) as (_ & _ & _ & _ & _ & H).
    apply H. reflexivity.
Defined.

(** C6 as stated fails: after the reply the chat is cleared, and the image
    step that resolves then patches no element of the list, which still
    holds the greeting. *)
Lemma image_merge_after_clear_patches_nothing :
  let w := run initial replyThenClear in
  let w' := step w (ImageSettled 0 None) in
  reachable w
  /\ enabled w (ImageSettled 0 None) = true
  /\ List.length (messages (chatState w)) = 1%nat
  /\ messages (chatState w') = messages (chatState w)
  /\ ~ (exists pre m m' post,
          messages (chatState w) = pre ++ m :: post
          /\ messages (chatState w') = pre ++ m' :: post
          /\ m' <> m).
Proof.
  intros w w'.
  assert (E : messages (chatState w') = messages (chatState w)) by reflexivity.
  split; [apply reachable_run; [constructor|reflexivity]|].
  split; [reflexivity|]. split; [reflexivity|]. split; [exact E|].
  intros (pre & m & m' & post & H1 & H2 & Hne).
  rewrite E, H1 in H2. apply app_inv_head in H2. congruence.
Qed.

(** Two replies that the clock gives the same identifier share their image
    merges: both end with [imageUrl] and [imageError]. *)
Remark colliding_identifiers_share_merges :
  let w := run initial sameIdentifierTwice in
  reachable w
  /\ imageResolved w = [lit "3001"; lit "3001"]
  /\ exists m, nth_error (messages (chatState w)) 2 = Some m
               /\ isSome (imageUrl m) = true /\ imageError m = Some true.
Proof.
  intros w. split; [apply reachable_run; [constructor|reflexivity]|].
  split; [reflexivity|]. eexists. split; [reflexivity|]. split; reflexivity.
Qed.

(** *** Suggestions *)

(** What [getSuggestions] computes: the three suggestions exactly when the
    chat is not loading and its last message is a model message that is not
    an error and whose identifier is not ['welcome']; nothing otherwise. *)
Lemma getSuggestions_spec (cs : ChatState) :
  (isLoading cs = false
   /\ exists lastMsg,
        nth_error (messages cs) (List.length (messages cs) - 1) = Some lastMsg
        /\ role lastMsg = model
        /\ isError lastMsg <> Some true
        /\ id lastMsg <> lit "welcome")
  /\ getSuggestions cs = SUGGESTIONS
  \/ getSuggestions cs = [].
Proof.
  unfold getSuggestions. destruct (isLoading cs); [now right|].
  destruct (nth_error _ _) as [lastMsg|]; [|now right].
  destruct (role lastMsg) eqn:Hr; cbn [isModel negb orb]; [now right|].
  destruct (isError lastMsg) as [[|]|] eqn:He; [now right| |];
    (destruct (str_eqb (id lastMsg) (lit "welcome")) eqn:Hi; [now right|]);
    left; (split; [|reflexivity]); (split; [reflexivity|]);
    exists lastMsg; repeat split; try congruence;
    intros E; apply str_eqb_eq in E; congruence.
Qed.

(** C9 on the code: after [clear()], with the greeting it produces as the
    last and only message, the three suggestions are offered; they are not
    after the selection of the subject, whose greeting has the identifier
    ['welcome']. *)
Theorem suggestions_after_clear :
  let selected := run initial [SelectSubject 3 1000] in
  let cleared := run initial selectThenClear in
  reachable cleared
  /\ map text (messages (chatState selected)) = [greetingText (Some PHYSICS)]
  /\ map text (messages (chatState cleared)) = [greetingText (Some PHYSICS)]
  /\ map id (messages (chatState selected)) = [lit "welcome"]
  /\ map id (messages (chatState cleared)) = [lit "2000"]
  /\ isLoading (chatState cleared) = false
  /\ getSuggestions (chatState selected) = []
  /\ getSuggestions (chatState cleared) = SUGGESTIONS.
Proof.
  intros selected cleared.
  split; [apply reachable_run; [constructor|reflexivity]|].
  repeat split.
Qed.

(** *** Subjects *)

(** C8 on the code: the enum has eight members, none of them with the value
    "Pakistan Studies"; seven of the eight subject cards carry a member of
    the enum and the eighth, [Subject.PAK_STUDIES], carries [undefined];
    "General Help" is on no card. *)
Theorem Subject_enum_and_cards :
  (forall s : Subject, In s (map snd Subject_members))
  /\ map (fun m => Subject_value (snd m)) Subject_members
     = [ "English"; "Urdu"; "Mathematics"; "Physics"; "Chemistry"; "Biology";
         "Computer Science"; "General Help" ]%string
  /\ (forall s : Subject, Subject_value s <> "Pakistan Studies"%string)
  /\ Subject_get "PAK_STUDIES" = None
  /\ map config_id SUBJECTS_CONFIG
     = [ Some ENGLISH; Some URDU; Some MATHS; Some PHYSICS; Some CHEMISTRY;
         Some BIOLOGY; Some COMPUTER; None ]
  /\ selectedSubject (chatState (step initial (SelectSubject 7 1000))) = None.
Proof.
  split; [intros []; cbn; tauto|].
  split; [reflexivity|].
  split; [intros []; discriminate|].
  repeat split.
Qed.

End AppFacts.

(** ** The audio playback controller *)

Module BubbleFacts.
Import GeminiService MessageBubble Scenarios.

Lemma bubble_reachable_run (m : Message) (es : list PlayEvent) (b : Bubble) :
  reachableBubble m b -> playFeasible b es = true -> reachableBubble m (playRun b es).
Proof.
  revert b. induction es as [|e es IH]; intros b Hb Hf; [exact Hb|].
  cbn [playFeasible] in Hf. apply andb_prop in Hf as [He Hf].
  apply IH; [now apply reachableBubble_step|exact Hf].
Qed.

Lemma contextCounted_step (b : Bubble) (e : PlayEvent) :
  contextCounted b -> contextCounted (playStep b e).
Proof.
  unfold contextCounted.
  destruct e as [fresh|k resumed|k data|s]; cbn [playStep];
    unfold toggle, handlePlayAudio, resumeSettled, speechSettled, sourceEnded,
      startLoading, playBuffer, playbackError;
    intros C;
    (destruct (audioContextRef b) eqn:Ectx;
     [|destruct C as [C0 Ct]; rewrite ?Ct, ?nth_error_nil]);
    cbn in *; split_cases; rewrite ?Ectx in *;
    try discriminate; try congruence; try lia; auto.
Qed.

(** One context per message: no reachable state has constructed two. *)
Lemma one_context_per_message (m : Message) (b : Bubble) :
  reachableBubble m b -> (contextsConstructed b <= 1)%nat.
Proof.
  intros H.
  assert (C : contextCounted b).
  { induction H as [|b e _ IH _]; [now split|now apply contextCounted_step]. }
  unfold contextCounted in C. destruct (audioContextRef b); lia.
Qed.

(** A press while loading does nothing: the button is disabled. *)
Lemma toggle_while_loading (fresh : ContextState) (b : Bubble) :
  audioState b = loading -> toggle fresh b = b.
Proof.
  intros H. unfold toggle, buttonEnabled. rewrite H. cbn.
  now rewrite andb_false_r.
Qed.

(** A press while playing stops the active source and goes to idle at
    once: no invocation is left suspended, no context is constructed and no
    speech is requested. *)
Lemma toggle_while_playing (fresh : ContextState) (b : Bubble) (s : nat) :
  buttonEnabled b = true ->
  audioState b = playing ->
  sourceNodeRef b = Some s ->
  nth_error (sourceNodes b) s = Some Started ->
  let b' := toggle fresh b in
  audioState b' = idle
  /\ nth_error (sourceNodes b') s = Some Stopped
  /\ playTasks b' = playTasks b
  /\ contextsConstructed b' = contextsConstructed b
  /\ speechRequests b' = speechRequests b
  /\ playingTransitions b' = playingTransitions b.
Proof.
  intros Hb Hp Hs Hn b'. subst b'. unfold toggle, handlePlayAudio.
  rewrite Hb, Hp, Hs. unfold stopSource. rewrite Hn. cbn.
  repeat split. revert Hn. generalize (sourceNodes b). clear.
  induction s as [|s IH]; intros [|x l] H; cbn in *; try discriminate; auto.
Qed.

(** With a context that is handed out running, the second of two presses
    in a row finds the button disabled and does nothing. *)
Lemma second_press_ignored_when_running (m : Message) :
  buttonEnabled (mount m) = true ->
  let b1 := toggle running (mount m) in
  audioState b1 = loading
  /\ toggle running b1 = b1
  /\ contextsConstructed b1 = 1%nat
  /\ List.length (speechRequests b1) = 1%nat.
Proof.
  intros Hb b1.
  assert (E : b1 = handlePlayAudio running (mount m))
    by (subst b1; unfold toggle; now rewrite Hb).
  assert (L : audioState b1 = loading) by now rewrite E.
  split; [exact L|]. split; [now apply toggle_while_loading|].
  now rewrite E.
Qed.

(** C7 on the code: two presses in a row while the context is being
    resumed both go through; with both speech requests answered the bubble
    has gone to [playing] twice and two sources play at once, on the one
    context that was constructed. *)
Theorem double_press_plays_twice :
  let b := playRun (mount tutorReply) doublePress in
  reachableBubble tutorReply b
  /\ audioState (playRun (mount tutorReply) (firstn 1 doublePress)) = idle
  /\ playingTransitions b = 2%nat
  /\ activeSources b = 2%nat
  /\ List.length (speechRequests b) = 2%nat
  /\ contextsConstructed b = 1%nat
  /\ audioState b = playing.
Proof.
  intros b.
  split; [apply bubble_reachable_run; [constructor|reflexivity]|].
  repeat split.
Qed.

End BubbleFacts.

(** * Further properties of the code *)

(** ** The service: decoding, sources, image and speech results *)

Module ServiceExtras.
Import GeminiService GeminiCalls PCMFormat Scenarios MoreScenarios.

(** *** [base64ToBytes] and [decodePCM] *)

(** Induction on a list two elements at a time. *)
Lemma list_ind2 {A} (P : list A -> Prop) :
  P [] -> (forall a, P [a]) ->
  (forall a b l, P l -> P (a :: b :: l)) ->
  forall l, P l.
Proof.
  intros H0 H1 H2.
  fix IH 1. intros [|a [|b l]];
    [exact H0|exact (H1 a)|exact (H2 a b l (IH l))].
Qed.

Lemma int16_of_bytes_range (lo hi : N) :
  (lo < 256)%N -> (hi < 256)%N -> is_int16 (int16_of_bytes lo hi).
Proof.
  unfold is_int16, int16_of_bytes. intros Hlo Hhi.
  destruct (Z.ltb_spec (Z.of_N lo + 256 * Z.of_N hi) 32768); lia.
Qed.

Lemma int16_elements_range (bytes : list N) :
  Forall (fun c => (c < 256)%N) bytes ->
  Forall is_int16 (int16_elements bytes).
Proof.
  induction bytes as [|a|a b l IH] using list_ind2; intros H;
    try (cbn; constructor).
  - inversion_clear H as [|? ? Ha H']. inversion_clear H' as [|? ? Hb _].
    now apply int16_of_bytes_range.
  - inversion_clear H as [|? ? Ha H']. inversion_clear H' as [|? ? Hb Hl].
    now apply IH.
Qed.

Lemma length_int16_elements (bytes : list N) :
  Nat.even (List.length bytes) = true ->
  List.length bytes = (2 * List.length (int16_elements bytes))%nat.
Proof.
  induction bytes as [|a|a b l IH] using list_ind2; intros H;
    [reflexivity|discriminate H|].
  cbn [int16_elements List.length] in *. rewrite IH by exact H. lia.
Qed.

Lemma base64ToBytes_lt (base64 : jsstring) (bytes : list N) :
  base64ToBytes base64 = Ok bytes -> Forall (fun c => (c < 256)%N) bytes.
Proof.
  unfold base64ToBytes. destruct (atob base64) as [s|]; [|discriminate].
  intros [= <-]. apply Forall_map, Forall_forall. intros c _.
  apply N.mod_lt. discriminate.
Qed.

(** What [decodePCM] does with the bytes behind its input. *)
Lemma decodePCM_cases (base64Data : jsstring) :
  decodePCM base64Data
  = match base64ToBytes base64Data with
    | Throw e => Throw e
    | Ok bytes =>
        if Nat.even (List.length bytes) then
          match int16_elements bytes with
          | [] => Throw NotSupportedError
          | int16Data =>
              Ok {| numberOfChannels := 1;
                    frameLength := List.length int16Data;
                    sampleRate := 24000;
                    channelData := [map toFloat int16Data] |}
          end
        else Throw RangeError
    end.
Proof.
  unfold decodePCM. destruct (base64ToBytes base64Data) as [bytes|e];
    [|reflexivity].
  cbn [bind]. unfold Int16Array_of_buffer.
  destruct (Nat.even (List.length bytes)); [|reflexivity].
  cbn [bind]. rewrite Nat.div_1_r.
  destruct (int16_elements bytes) as [|v vs] eqn:E; [reflexivity|].
  unfold createBuffer.
  cbn [List.length Nat.leb andb Z.leb Z.compare Pos.compare Pos.compare_cont
       bind numberOfChannels frameLength sampleRate channelData].
  change (1 <=? 32)%nat with true. cbn [andb bind numberOfChannels
    frameLength GeminiService.sampleRate channelData].
  do 2 f_equal.
  exact (DecoderFacts.fillChannels_mono (v :: vs)).
Qed.

(** X1: [base64ToBytes] gives back the bytes of any binary string that
    [btoa] encoded. *)
Theorem base64ToBytes_btoa (data encoded : jsstring) :
  btoa data = Some encoded -> base64ToBytes encoded = Ok data.
Proof.
  intros H. unfold base64ToBytes.
  rewrite (Base64Facts.atob_btoa data encoded H). f_equal.
  unfold btoa in H. destruct (forallb _ data) eqn:E; [|discriminate H].
  rewrite forallb_forall in E. clear H.
  induction data as [|c r IH]; [reflexivity|].
  cbn [map]. rewrite IH by (intros x Hx; apply E; now right).
  f_equal. apply N.mod_small, N.ltb_lt, E. now left.
Qed.

Lemma base64ToBytes_btoa_witness :
  btoa [72; 105; 255]%N = Some (lit "SGn/")
  /\ base64ToBytes (lit "SGn/") = Ok [72; 105; 255]%N.
Proof.
  split; [reflexivity|].
  apply (base64ToBytes_btoa [72; 105; 255]%N (lit "SGn/")). reflexivity.
Defined.

Lemma stripPadding_keeps (s : jsstring) (c : N) :
  In c s -> c <> 61%N -> In c (stripPadding s).
Proof.
  intros Hin Hc. unfold stripPadding.
  destruct (rev s) as [|c1 r1] eqn:Er; [exact Hin|].
  assert (Es : s = rev r1 ++ [c1])
    by (rewrite <- (rev_involutive s), Er; reflexivity).
  destruct (N.eqb_spec c1 61) as [->|_]; [|exact Hin].
  assert (Hr1 : In c (rev r1)).
  { rewrite Es in Hin. apply in_app_or in Hin as [H|[H|[]]]; congruence. }
  destruct r1 as [|c2 r2]; [exact Hr1|].
  destruct (N.eqb_spec c2 61) as [->|_]; [|exact Hr1].
  cbn [rev] in Hr1. apply in_app_or in Hr1 as [H|[H|[]]]; congruence.
Qed.

Lemma b64vals_invalid (s : jsstring) (c : N) :
  In c s -> b64val c = None -> b64vals s = None.
Proof.
  induction s as [|a r IH]; [intros []|].
  intros [<-|Hin] Hc; cbn [b64vals].
  - now rewrite Hc.
  - rewrite (IH Hin Hc). now destruct (b64val a).
Qed.

(** X2: an input with a character that is neither white space, nor [=],
    nor of the base64 alphabet makes [base64ToBytes], and with it
    [decodePCM], throw an [InvalidCharacterError]. *)
Theorem decodePCM_invalid_character (base64Data : jsstring) (c : N) :
  In c base64Data ->
  isAsciiWhitespace c = false ->
  b64val c = None ->
  c <> 61%N ->
  base64ToBytes base64Data = Throw InvalidCharacterError
  /\ decodePCM base64Data = Throw InvalidCharacterError.
Proof.
  intros Hin Hws Hval Hpad.
  assert (A : atob base64Data = None).
  { unfold atob.
    set (d1 := filter (fun c => negb (isAsciiWhitespace c)) base64Data).
    assert (H1 : In c d1) by (apply filter_In; now rewrite Hws).
    set (d2 := if (Nat.modulo (List.length d1) 4 =? 0)%nat
               then stripPadding d1 else d1).
    assert (H2 : In c d2)
      by (subst d2; destruct (_ =? _)%nat; [now apply stripPadding_keeps|exact H1]).
    rewrite (b64vals_invalid d2 c H2 Hval).
    destruct (Nat.modulo (List.length d2) 4 =? 1)%nat; reflexivity. }
  assert (B : base64ToBytes base64Data = Throw InvalidCharacterError)
    by (unfold base64ToBytes; now rewrite A).
  split; [exact B|]. now rewrite decodePCM_cases, B.
Qed.

Lemma decodePCM_invalid_character_witness :
  base64ToBytes (lit "AA*A") = Throw InvalidCharacterError
  /\ decodePCM (lit "AA*A") = Throw InvalidCharacterError.
Proof.
  apply (decodePCM_invalid_character (lit "AA*A") 42%N).
  - cbn. tauto.
  - reflexivity.
  - reflexivity.
  - discriminate.
Defined.

(** X3: a buffer that [decodePCM] returns has one channel at 24000 Hz and
    at least one frame; the input decodes to two bytes per frame, and the
    channel holds one sample per frame, each in [-1, 1). *)
Theorem decodePCM_buffer_shape (base64Data : jsstring) (buffer : AudioBuffer) :
  decodePCM base64Data = Ok buffer ->
  numberOfChannels buffer = 1%nat
  /\ sampleRate buffer = 24000%Z
  /\ (1 <= frameLength buffer)%nat
  /\ exists bytes samples,
       base64ToBytes base64Data = Ok bytes
       /\ List.length bytes = (2 * frameLength buffer)%nat
       /\ channelData buffer = [samples]
       /\ List.length samples = frameLength buffer
       /\ Forall (fun x => (-1 <= x)%Q /\ (x < 1)%Q) samples.
Proof.
  rewrite decodePCM_cases.
  destruct (base64ToBytes base64Data) as [bytes|e] eqn:B; [|discriminate].
  destruct (Nat.even (List.length bytes)) eqn:Ev; [|discriminate].
  pose proof (length_int16_elements bytes Ev) as L.
  pose proof (int16_elements_range bytes (base64ToBytes_lt _ _ B)) as R.
  destruct (int16_elements bytes) as [|v vs]; [discriminate|].
  intros [= <-]. cbn [numberOfChannels sampleRate frameLength channelData].
  split; [reflexivity|]. split; [reflexivity|].
  split; [cbn; lia|].
  exists bytes, (map toFloat (v :: vs)).
  split; [reflexivity|]. split; [exact L|]. split; [reflexivity|].
  split; [apply length_map|].
  apply Forall_map. revert R. apply Forall_impl.
  intros x Hx. exact (DecoderFacts.toFloat_range x Hx).
Qed.

Lemma decodePCM_buffer_shape_witness :
  exists buffer,
    decodePCM (lit "/38AgP//AQA=") = Ok buffer
    /\ numberOfChannels buffer = 1%nat
    /\ sampleRate buffer = 24000%Z
    /\ (1 <= frameLength buffer)%nat.
Proof.
  eexists. split; [reflexivity|].
  destruct (decodePCM_buffer_shape (lit "/38AgP//AQA=") _ eq_refl)
    as (H1 & H2 & H3 & _).
  split; [exact H1|]. split; [exact H2|exact H3].
Defined.

(** X4: the three ways [decodePCM] fails: [atob] rejects the input, the
    bytes are odd in number, or there is no byte at all. *)
Theorem decodePCM_errors (base64Data : jsstring) (e : DecodeError) :
  decodePCM base64Data = Throw e ->
  (e = InvalidCharacterError /\ atob base64Data = None)
  \/ (e = RangeError
      /\ exists bytes, base64ToBytes base64Data = Ok bytes
                       /\ Nat.odd (List.length bytes) = true)
  \/ (e = NotSupportedError /\ base64ToBytes base64Data = Ok []).
Proof.
  rewrite decodePCM_cases. unfold base64ToBytes.
  destruct (atob base64Data) as [s|]; [|intros [= <-]; now left].
  set (bytes := map (fun c => (c mod 256)%N) s).
  destruct (Nat.even (List.length bytes)) eqn:Ev.
  - destruct bytes as [|a [|b r]] eqn:Eb; cbn [int16_elements].
    + intros [= <-]. right; right. now split.
    + discriminate Ev.
    + discriminate.
  - intros [= <-]. right; left. split; [reflexivity|].
    exists bytes. split; [reflexivity|].
    now rewrite <- Nat.negb_even, Ev.
Qed.

Lemma decodePCM_errors_witness :
  (RangeError = InvalidCharacterError /\ atob (lit "AAEC") = None)
  \/ (RangeError = RangeError
      /\ exists bytes, base64ToBytes (lit "AAEC") = Ok bytes
                       /\ Nat.odd (List.length bytes) = true)
  \/ (RangeError = NotSupportedError /\ base64ToBytes (lit "AAEC") = Ok []).
Proof.
  apply (decodePCM_errors (lit "AAEC") RangeError). reflexivity.
Defined.

(** *** [generateTutorResponse]: the sources *)

(** The web entries of the grounding chunks, in order. *)
Lemma extractSources_webs (chunks : list GroundingChunk) :
  Forall2 (fun w s =>
             uri s = web_uri w
             /\ title s = match web_title w with
                          | Some (c :: t) => c :: t
                          | _ => lit "Reference Link"
                          end)
    (flat_map (fun c => match web c with
                        | Some w => [w]
                        | None => []
                        end) chunks)
    (extractSources (Some chunks)).
Proof.
  unfold extractSources.
  induction chunks as [|c r IH]; [constructor|].
  cbn [flat_map]. apply Forall2_app; [|exact IH].
  destruct (web c) as [w|]; [|constructor].
  constructor; [|constructor]. cbn [uri title]. split; [reflexivity|].
  now destruct (web_title w) as [[|x t]|].
Qed.

(** X5: the sources of a tutor response are the web entries of the
    grounding chunks, one for one and in their order, chunks without one
    being skipped: each source has the entry's uri, and the entry's title
    or, when that is missing or empty, the text "Reference Link"; so every
    source has a title. *)
Theorem tutor_sources_titled (response : ApiResponse)
  (result : GenerateResponseResult) :
  generateTutorResponse (Some response) = Some result ->
  Forall2 (fun w s =>
             uri s = web_uri w
             /\ title s = match web_title w with
                          | Some (c :: t) => c :: t
                          | _ => lit "Reference Link"
                          end)
    match groundingChunks response with
    | Some chunks =>
        flat_map (fun c => match web c with
                           | Some w => [w]
                           | None => []
                           end) chunks
    | None => []
    end
    (result_sources result)
  /\ Forall (fun s => title s <> []) (result_sources result).
Proof.
  cbn [generateTutorResponse]. intros [= <-]. cbn [result_sources].
  assert (F : Forall2 (fun w s =>
             uri s = web_uri w
             /\ title s = match web_title w with
                          | Some (c :: t) => c :: t
                          | _ => lit "Reference Link"
                          end)
    match groundingChunks response with
    | Some chunks =>
        flat_map (fun c => match web c with
                           | Some w => [w]
                           | None => []
                           end) chunks
    | None => []
    end
    (extractSources (groundingChunks response))).
  { destruct (groundingChunks response) as [cs|];
      [apply extractSources_webs|constructor]. }
  split; [exact F|].
  induction F as [|w s ws ss [_ Ht] _ IH]; constructor; [|exact IH].
  rewrite Ht. destruct (web_title w) as [[|x t]|]; discriminate.
Qed.

Lemma tutor_sources_titled_witness :
  exists result,
    generateTutorResponse (Some Scenarios.gravityResponse) = Some result
    /\ result_sources result
       = [ {| title := lit "Reference Link";
              uri := lit "https://example.org/gravity" |} ]
    /\ Forall (fun s => title s <> []) (result_sources result).
Proof.
  eexists. split; [reflexivity|]. split; [reflexivity|].
  exact (proj2 (tutor_sources_titled Scenarios.gravityResponse _ eq_refl)).
Defined.

(** *** [generateEducationalImage] *)

Lemma dataUrl_prefix (d : InlineData) :
  exists rest, dataUrl d = lit "data:" ++ rest /\ dataUrl d <> [].
Proof.
  unfold dataUrl. eexists. split; [reflexivity|]. discriminate.
Qed.

Lemma firstImage_some (parts : list Part) (url : jsstring) :
  firstImage parts = Some url ->
  exists pre part post d,
    parts = pre ++ part :: post
    /\ Forall (fun p => inlineData p = None) pre
    /\ inlineData part = Some d
    /\ url = dataUrl d.
Proof.
  induction parts as [|p r IH]; [discriminate|]. cbn [firstImage].
  destruct (inlineData p) as [d|] eqn:E.
  - intros [= <-]. exists [], p, r, d. repeat split; auto.
  - intros H. destruct (IH H) as (pre & part & post & d & -> & Hpre & Hd & ->).
    exists (p :: pre), part, post, d. repeat split; auto.
Qed.

Lemma firstImage_none (parts : list Part) :
  firstImage parts = None <-> Forall (fun p => inlineData p = None) parts.
Proof.
  induction parts as [|p r IH]; cbn [firstImage].
  - split; [constructor|reflexivity].
  - destruct (inlineData p) as [d|] eqn:E.
    + split; [discriminate|]. intros H. inversion H. congruence.
    + rewrite IH. split; [now constructor|]. intros H. now inversion H.
Qed.

Lemma educationalImage_truthy (userQuery : jsstring) (style : ImageStyle)
  (refinement : option (option jsstring))
  (render : jsstring -> option (option (list Part))) (url : jsstring) :
  generateEducationalImage userQuery style refinement render = Some url ->
  truthy url = true.
Proof.
  unfold generateEducationalImage.
  destruct refinement as [text|]; [|discriminate].
  destruct (render _) as [[parts|]|]; try discriminate.
  intros H. destruct (firstImage_some parts url H)
    as (pre & part & post & d & _ & _ & _ & ->).
  reflexivity.
Qed.

(** X6: an image that [generateEducationalImage] returns is the data URL
    of the first part with inline data, [image/png] standing in for a
    missing mime type; both API calls resolved, and the URL is not empty. *)
Theorem educationalImage_result (userQuery : jsstring) (style : ImageStyle)
  (refinement : option (option jsstring))
  (render : jsstring -> option (option (list Part))) (url : jsstring) :
  generateEducationalImage userQuery style refinement render = Some url ->
  exists text pre part post d,
    refinement = Some text
    /\ render (imagePrompt (refinedTopic text userQuery) (styleDescription style))
       = Some (Some (pre ++ part :: post))
    /\ Forall (fun p => inlineData p = None) pre
    /\ inlineData part = Some d
    /\ url = lit "data:" ++ or_else (mimeType d) (lit "image/png")
             ++ lit ";base64," ++ templateValue (data d)
    /\ truthy url = true.
Proof.
  unfold generateEducationalImage.
  destruct refinement as [text|]; [|discriminate].
  destruct (render _) as [[parts|]|] eqn:R; try discriminate.
  intros H. destruct (firstImage_some parts url H)
    as (pre & part & post & d & -> & Hpre & Hd & ->).
  exists text, pre, part, post, d. repeat split; auto.
Qed.

Lemma educationalImage_result_witness :
  generateEducationalImage (lit "What is an atom?") Cartoon
    (Some (Some (lit " Atom Structure "))) renderPicture
  = Some (lit "data:image/png;base64,iVBORw0KGgo=")
  /\ exists text pre part post d,
       Some (Some (lit " Atom Structure ")) = Some text
       /\ renderPicture
            (imagePrompt (refinedTopic text (lit "What is an atom?"))
                         (styleDescription Cartoon))
          = Some (Some (pre ++ part :: post))
       /\ Forall (fun p => inlineData p = None) pre
       /\ inlineData part = Some d
       /\ lit "data:image/png;base64,iVBORw0KGgo="
          = lit "data:" ++ or_else (mimeType d) (lit "image/png")
            ++ lit ";base64," ++ templateValue (data d)
       /\ truthy (lit "data:image/png;base64,iVBORw0KGgo=") = true.
Proof.
  split; [reflexivity|].
  apply (educationalImage_result (lit "What is an atom?") Cartoon
           (Some (Some (lit " Atom Structure "))) renderPicture
           (lit "data:image/png;base64,iVBORw0KGgo=")).
  reflexivity.
Defined.

(** X7: [generateEducationalImage] returns null exactly when the
    refinement call rejects, the image call rejects, the response has no
    parts, or no part has inline data. *)
Theorem educationalImage_null (userQuery : jsstring) (style : ImageStyle)
  (refinement : option (option jsstring))
  (render : jsstring -> option (option (list Part))) :
  generateEducationalImage userQuery style refinement render = None
  <-> refinement = None
      \/ exists text,
           refinement = Some text
           /\ let prompt := imagePrompt (refinedTopic text userQuery)
                                        (styleDescription style) in
              render prompt = None
              \/ render prompt = Some None
              \/ exists parts,
                   render prompt = Some (Some parts)
                   /\ Forall (fun p => inlineData p = None) parts.
Proof.
  unfold generateEducationalImage. split.
  - destruct refinement as [text|]; [|now left]. intros H. right.
    exists text. split; [reflexivity|]. cbn zeta.
    destruct (render _) as [[parts|]|]; auto.
    right; right. exists parts. split; [reflexivity|].
    now apply firstImage_none.
  - intros [->|(text & -> & H)]; [reflexivity|]. cbn zeta in H.
    destruct H as [->|[->|(parts & -> & H)]]; try reflexivity.
    now apply firstImage_none.
Qed.

(** X8: merging the result of [generateEducationalImage] into the reply
    sets [imageUrl] exactly when the result is not null, and [imageError]
    exactly when it is: the truthiness test of the merge loses nothing. *)
Theorem mergeImage_of_educationalImage (userQuery : jsstring)
  (style : ImageStyle) (refinement : option (option jsstring))
  (render : jsstring -> option (option (list Part))) (msg : Message) :
  let imageResult :=
    generateEducationalImage userQuery style refinement render in
  let merged := App.mergeImage (id msg) imageResult msg in
  match imageResult with
  | Some url =>
      imageUrl merged = Some url /\ imageError merged = imageError msg
  | None =>
      imageUrl merged = imageUrl msg /\ imageError merged = Some true
  end.
Proof.
  intros imageResult merged. subst merged. unfold App.mergeImage.
  rewrite AppFacts.str_eqb_refl.
  destruct imageResult as [url|] eqn:E; cbn [truthy_opt].
  - rewrite (educationalImage_truthy _ _ _ _ _ E). now split.
  - now split.
Qed.

Lemma or_else_blank (text : option jsstring) (d : jsstring) :
  match text with
  | Some t => Forall (fun c => isWhiteSpace c = true) t
  | None => True
  end ->
  or_else (option_map trim text) d = d.
Proof.
  destruct text as [t|]; [|reflexivity]. intros H. cbn [option_map or_else].
  now rewrite (AppFacts.trim_whitespace t H).
Qed.

(** X9: a refinement without text, or with white space only, leaves the
    user's query as the topic; otherwise the topic is the trimmed text; the
    topic of a non-empty query is never empty. *)
Theorem refinedTopic_fallback (text : option jsstring) (userQuery : jsstring) :
  (match text with
   | Some t => Forall (fun c => isWhiteSpace c = true) t
   | None => True
   end -> refinedTopic text userQuery = userQuery)
  /\ (forall t, text = Some t -> truthy (trim t) = true ->
        refinedTopic text userQuery = trim t)
  /\ (userQuery <> [] -> refinedTopic text userQuery <> []).
Proof.
  unfold refinedTopic. split; [apply or_else_blank|]. split.
  - intros t -> H. cbn [option_map or_else]. now rewrite H.
  - intros H. now apply AppFacts.or_else_truthy.
Qed.

(** X10: for a given topic, two styles that give the same image prompt are
    the same style. *)
Theorem imagePrompt_style_injective (topic : jsstring)
  (style style' : ImageStyle) :
  imagePrompt topic (styleDescription style)
  = imagePrompt topic (styleDescription style') ->
  style = style'.
Proof.
  unfold imagePrompt. intros H.
  repeat (apply app_inv_head in H).
  destruct style, style'; try reflexivity; vm_compute in H; discriminate H.
Qed.

Lemma imagePrompt_style_injective_witness :
  imagePrompt (lit "Atom") (styleDescription LowPoly)
  = lit "Create a high-quality, educational illustration of: Atom. "
    ++ [10%N]
    ++ lit "    The style should be low poly art style, geometric shapes, minimal details, vibrant colors. Clear details for a student to understand."
  /\ LowPoly = LowPoly.
Proof.
  split; [reflexivity|].
  apply (imagePrompt_style_injective (lit "Atom") LowPoly LowPoly).
  reflexivity.
Defined.

(** *** [generateSpeechFromText] *)

(** X11: [generateSpeechFromText] returns audio exactly when the first
    part of the response carries non-empty inline data, and then that data;
    later parts are not read. *)
Theorem speech_from_first_part (outcome : option (option (list Part)))
  (audio : jsstring) :
  generateSpeechFromText outcome = Some audio
  <-> audio <> []
      /\ exists first rest d,
           outcome = Some (Some (first :: rest))
           /\ inlineData first = Some d
           /\ data d = Some audio.
Proof.
  unfold generateSpeechFromText. split.
  - destruct outcome as [[[|first rest]|]|]; try discriminate.
    destruct (inlineData first) as [d|] eqn:Ed; [|discriminate].
    destruct (data d) as [s|] eqn:Es; [|discriminate].
    destruct s as [|c s]; [discriminate|]. intros [= <-].
    split; [discriminate|]. exists first, rest, d. now repeat split.
  - intros (Hne & first & rest & d & -> & Hd & Hs). rewrite Hd, Hs.
    destruct audio; [congruence|reflexivity].
Qed.

End ServiceExtras.

(** ** The orchestrator: turns, invariants, resets *)

Module AppExtras.
Import GeminiService App AppView AppFacts Scenarios MoreScenarios.

(** *** Identifiers minted from the clock *)

Lemma lit_inj (a b : string) : lit a = lit b -> a = b.
Proof.
  unfold lit. intros H.
  rewrite <- (string_of_list_ascii_of_string a),
          <- (string_of_list_ascii_of_string b).
  f_equal. revert H.
  generalize (list_ascii_of_string a) (list_ascii_of_string b).
  induction l as [|x l IH]; intros [|y l'] H; try discriminate; auto.
  cbn [map] in H. injection H as Hx Hl. f_equal; [|now apply IH].
  now rewrite <- (ascii_N_embedding x), <- (ascii_N_embedding y), Hx.
Qed.

Lemma to_int_proper (n : Z) :
  Z.to_int n <> Decimal.Pos Decimal.Nil /\ Z.to_int n <> Decimal.Neg Decimal.Nil.
Proof.
  destruct n as [|p|p]; cbn [Z.to_int]; split; try discriminate;
    intros [= H]; now apply Unsigned.to_uint_nonnil in H.
Qed.

Lemma toString_parses (n : Z) (s : string) :
  toString n = lit s -> NilZero.int_of_string s = Some (Z.to_int n).
Proof.
  unfold toString. intros H. apply lit_inj in H. rewrite <- H.
  destruct (to_int_proper n). now apply NilZero.isi.
Qed.

Lemma toString_inj (a b : Z) : toString a = toString b -> a = b.
Proof.
  intros H. apply DecimalZ.to_int_inj.
  pose proof (toString_parses a _ H) as P.
  destruct (to_int_proper b) as [B1 B2].
  rewrite (NilZero.isi _ B1 B2) in P. congruence.
Qed.

Lemma toString_not_welcome (n : Z) : str_eqb (toString n) (lit "welcome") = false.
Proof.
  destruct (str_eqb _ _) eqn:E; [|reflexivity].
  apply str_eqb_eq, toString_parses in E. discriminate E.
Qed.

(** *** One turn *)

Lemma trim_truthy_nonempty (s : jsstring) : truthy (trim s) = true -> s <> [].
Proof. intros H ->. discriminate H. Qed.

(** X12: a send that the guard lets through, followed by the reply to it:
    the list gains the user message with the prompt as typed, then one
    model message with a non-empty text; the two have different
    identifiers if the clock did not go back; the input is cleared; while
    the request is in flight the chat is loading and offers no suggestion,
    after the reply it is not loading and offers the three; one text call
    was issued with the earlier messages as history, then one image call
    with the same prompt, subject and style. *)
Theorem send_then_reply (w : World) (subject : Subject)
  (response : ApiResponse) (t1 t1' t2 t2' : Z) :
  selectedSubject (chatState w) = Some subject ->
  isLoading (chatState w) = false ->
  truthy (trim (inputText w)) = true ->
  let k := List.length (tasks w) in
  let w1 := step w (Submit t1 t1') in
  let w2 := step w1 (TutorSettled k (Some response) t2 t2') in
  exists userMessage botMessage,
    messages (chatState w2)
    = messages (chatState w) ++ [userMessage; botMessage]
    /\ role userMessage = user
    /\ text userMessage = inputText w
    /\ id userMessage = toString t1
    /\ role botMessage = model
    /\ text botMessage <> []
    /\ isError botMessage = None
    /\ id botMessage = toString (t2 + 1)
    /\ ((t1 <= t2)%Z -> id userMessage <> id botMessage)
    /\ isLoading (chatState w1) = true
    /\ getSuggestions (chatState w1) = []
    /\ isLoading (chatState w2) = false
    /\ inputText w2 = []
    /\ calls w2
       = calls w
         ++ [ (k, TutorCall (inputText w)
                    (map (fun m => (role m, text m)) (messages (chatState w)))
                    subject);
              (k, ImageCall (inputText w) subject (visualStyle w)) ]
    /\ nth_error (tasks w2) k = Some (AwaitImage (id botMessage))
    /\ getSuggestions (chatState w2) = SUGGESTIONS.
Proof.
  intros Hs Hl Ht k w1 w2.
  assert (E1 : w1 = {| chatState :=
                         {| messages := messages (chatState w)
                              ++ [ {| id := toString t1; role := user;
                                      text := inputText w; timestamp := t1';
                                      sources := None; imageUrl := None;
                                      imageError := None; isError := None |} ];
                            isLoading := true;
                            selectedSubject := selectedSubject (chatState w) |};
                       inputText := [];
                       visualStyle := visualStyle w;
                       tasks := tasks w
                                ++ [AwaitTutor (inputText w) subject (visualStyle w)];
                       calls := calls w
                                ++ [(k, TutorCall (inputText w)
                                          (map (fun m => (role m, text m))
                                               (messages (chatState w)))
                                          subject)];
                       imageResolved := imageResolved w |}).
  { subst w1 k. cbn [step]. unfold handleSendMessage.
    now rewrite Hs, Ht, Hl. }
  assert (Hk : nth_error (tasks w1) k
               = Some (AwaitTutor (inputText w) subject (visualStyle w))).
  { rewrite E1. cbn [tasks]. subst k.
    now rewrite nth_error_app2, Nat.sub_diag by lia. }
  assert (Hne : or_else (response_text response) NO_ANSWER <> [])
    by (apply or_else_truthy; discriminate).
  subst w2. cbn [step]. unfold tutorSettled. rewrite Hk.
  cbn [generateTutorResponse result_text result_sources].
  rewrite E1. cbn [chatState messages isLoading inputText calls tasks
                   visualStyle selectedSubject].
  do 2 eexists. split; [now rewrite <- app_assoc|].
  cbn [role text id isError].
  repeat split; try assumption.
  - intros Hle E. apply toString_inj in E. lia.
  - now rewrite <- app_assoc.
  - subst k. eapply nth_error_setNth_same.
    now rewrite nth_error_app2, Nat.sub_diag by lia.
  - unfold getSuggestions. cbn [isLoading messages].
    rewrite !length_app. cbn [List.length].
    replace (List.length (messages (chatState w)) + 1 + 1 - 1)%nat
      with (List.length (messages (chatState w) ++ [ {| id := toString t1; role := user;
                                      text := inputText w; timestamp := t1';
                                      sources := None; imageUrl := None;
                                      imageError := None; isError := None |} ]))
      by (rewrite length_app; cbn; lia).
    rewrite nth_error_app2, Nat.sub_diag by lia.
    cbn [nth_error role isModel negb isError orb id].
    now rewrite toString_not_welcome.
Qed.

(** *** Invariants of the reachable states *)

Lemma existsb_setNth (l : list Task) (j : nat) (x y : Task) :
  nth_error l j = Some x ->
  isAwaitTutor x = false -> isAwaitTutor y = false ->
  existsb isAwaitTutor (setNth j y l) = existsb isAwaitTutor l.
Proof.
  revert j. induction l as [|a l IH]; intros [|j] H Hx Hy; cbn in *;
    try discriminate.
  - injection H as ->. now rewrite Hx, Hy.
  - now rewrite (IH j H Hx Hy).
Qed.

Lemma loadingHasRequest_step (w : World) (e : Event) :
  loadingHasRequest w -> loadingHasRequest (step w e).
Proof.
  unfold loadingHasRequest. intros L.
  destruct e as [card now| |c n1 n2|s|st|n1 n2|j o n1 n2|j r]; cbn [step].
  - destruct (nth_error SUBJECTS_CONFIG card); [discriminate|exact L].
  - discriminate.
  - unfold handleClearChat.
    destruct (selectedSubject (chatState w)); [destruct c|];
      try exact L; discriminate.
  - exact L.
  - exact L.
  - unfold handleSendMessage.
    destruct (selectedSubject (chatState w)); [|exact L].
    destruct (_ || _); [exact L|]. intros _. cbn [tasks].
    rewrite existsb_app. cbn. now rewrite orb_true_r.
  - unfold tutorSettled.
    destruct (nth_error (tasks w) j) as [[ut sj sty|b|]|]; try exact L.
    destruct (generateTutorResponse o); discriminate.
  - unfold imageSettled.
    destruct (nth_error (tasks w) j) as [[ut sj sty|b|]|] eqn:Ej; try exact L.
    cbn [chatState isLoading tasks]. intros H.
    rewrite (existsb_setNth _ _ _ _ Ej) by reflexivity. now apply L.
Qed.

(** X13: whenever the chat is loading, a text request is still in flight,
    and its settlement, reply or failure, ends the loading. *)
Theorem loading_has_pending_request (w : World) :
  reachable w ->
  isLoading (chatState w) = true ->
  exists k userText subject style,
    nth_error (tasks w) k = Some (AwaitTutor userText subject style)
    /\ forall outcome t t',
         isLoading (chatState (step w (TutorSettled k outcome t t'))) = false.
Proof.
  intros Hw Hl.
  assert (L : loadingHasRequest w).
  { clear Hl. induction Hw as [|w e _ IH _]; [discriminate|].
    now apply loadingHasRequest_step. }
  specialize (L Hl). apply existsb_exists in L as (t & Hin & Ht).
  apply In_nth_error in Hin as [k Hk].
  destruct t as [ut sj sty| |]; try discriminate Ht.
  exists k, ut, sj, sty. split; [exact Hk|].
  intros outcome t t'. cbn [step]. unfold tutorSettled. rewrite Hk.
  now destruct (generateTutorResponse outcome).
Qed.

Lemma greetingText_nonempty (subject : option Subject) :
  greetingText subject <> [].
Proof. unfold greetingText. discriminate. Qed.

Lemma textsNonEmpty_step (w : World) (e : Event) :
  textsNonEmpty w -> textsNonEmpty (step w e).
Proof.
  unfold textsNonEmpty. intros T.
  destruct e as [card now| |c n1 n2|s|st|n1 n2|j o n1 n2|j r]; cbn [step].
  - destruct (nth_error SUBJECTS_CONFIG card); [|exact T].
    repeat constructor. apply greetingText_nonempty.
  - constructor.
  - unfold handleClearChat.
    destruct (selectedSubject (chatState w)); [destruct c|]; try exact T.
    repeat constructor. apply greetingText_nonempty.
  - exact T.
  - exact T.
  - unfold handleSendMessage.
    destruct (selectedSubject (chatState w)); [|exact T].
    destruct (negb (truthy (trim (inputText w)))) eqn:Ht; [exact T|].
    destruct (isLoading (chatState w)); [exact T|].
    cbn [orb chatState messages]. apply Forall_app. split; [exact T|].
    repeat constructor. cbn [text].
    apply trim_truthy_nonempty. now apply negb_false_iff.
  - unfold tutorSettled.
    destruct (nth_error (tasks w) j) as [[ut sj sty|b|]|]; try exact T.
    destruct o as [response|]; cbn [generateTutorResponse chatState messages];
      (apply Forall_app; split; [exact T|]); repeat constructor; cbn [text].
    + apply or_else_truthy. discriminate.
    + discriminate.
  - unfold imageSettled.
    destruct (nth_error (tasks w) j) as [[ut sj sty|b|]|]; try exact T.
    cbn [chatState messages]. apply Forall_map. revert T. apply Forall_impl.
    intros m Hm. unfold mergeImage.
    now destruct (str_eqb (id m) b), (truthy_opt r).
Qed.

(** X14: no message of a reachable conversation has an empty text. *)
Theorem messages_have_text (w : World) :
  reachable w ->
  forall m, In m (messages (chatState w)) -> text m <> [].
Proof.
  intros Hw.
  assert (T : textsNonEmpty w).
  { induction Hw as [|w e _ IH _]; [constructor|].
    now apply textsNonEmpty_step. }
  now apply Forall_forall.
Qed.

Lemma selectionFromCards_step (w : World) (e : Event) :
  selectionFromCards w -> selectionFromCards (step w e).
Proof.
  unfold selectionFromCards. intros S.
  destruct e as [card now| |c n1 n2|s|st|n1 n2|j o n1 n2|j r]; cbn [step].
  - destruct (nth_error SUBJECTS_CONFIG card) as [config|] eqn:E; [|exact S].
    cbn [handleSubjectSelect setChatState chatState selectedSubject].
    intros s' Hs. now exists card, config.
  - discriminate.
  - unfold handleClearChat.
    destruct (selectedSubject (chatState w)) eqn:E; [destruct c|];
      cbn [setChatState chatState selectedSubject]; intros s' Hs;
      apply S; congruence.
  - exact S.
  - exact S.
  - unfold handleSendMessage.
    destruct (selectedSubject (chatState w)) eqn:E;
      [|intros s' Hs; congruence].
    destruct (_ || _); cbn [chatState selectedSubject];
      intros s' Hs; apply S; congruence.
  - unfold tutorSettled.
    destruct (nth_error (tasks w) j) as [[ut sj sty|b|]|]; try exact S.
    destruct (generateTutorResponse o); exact S.
  - unfold imageSettled.
    destruct (nth_error (tasks w) j) as [[ut sj sty|b|]|]; exact S.
Qed.

(** X15: the selected subject is always one of the cards: its
    configuration is found for the header, and General Help, which has no
    card, is never selected. *)
Theorem selected_subject_has_card (w : World) (s : Subject) :
  reachable w ->
  selectedSubject (chatState w) = Some s ->
  s <> GENERAL
  /\ exists config,
       currentSubjectConfig s = Some config /\ config_id config = Some s.
Proof.
  intros Hw Hs.
  assert (S : selectionFromCards w).
  { clear Hs. induction Hw as [|w e _ IH _]; [discriminate|].
    now apply selectionFromCards_step. }
  destruct (S s Hs) as (card & config & Hc & Hi).
  do 8 (destruct card as [|card];
        [cbn in Hc; injection Hc as <-; cbn in Hi;
         first [discriminate Hi
               |injection Hi as <-;
                split; [discriminate|eexists; split; reflexivity]]|]).
  destruct card; discriminate Hc.
Qed.

Lemma count_tutor_snoc (c : nat * Call) (cs : list (nat * Call)) :
  List.length (filter isTutorCall (cs ++ [c]))
  = (List.length (filter isTutorCall cs)
     + if isTutorCall c then 1 else 0)%nat.
Proof.
  rewrite filter_app, length_app. cbn [filter].
  now destruct (isTutorCall c).
Qed.




(** *** Resets while a request is in flight *)

(** X17: a reply or failure that arrives after the user went back home or
    cleared the chat is appended to the new conversation: it is the only
    message of the home state, and follows the fresh greeting after a
    clear. *)
Theorem late_reply_joins_new_conversation (w : World) (k : nat)
  (userText : jsstring) (subject : Subject) (style : ImageStyle)
  (outcome : option ApiResponse) (t t' c c' : Z) :
  nth_error (tasks w) k = Some (AwaitTutor userText subject style) ->
  (let home := step (step w BackToHome) (TutorSettled k outcome t t') in
   selectedSubject (chatState home) = None
   /\ exists m, messages (chatState home) = [m]
                /\ role m = model /\ id m = toString (t + 1))
  /\ (forall s, selectedSubject (chatState w) = Some s ->
      let cleared :=
        step (step w (ClearChat true c c')) (TutorSettled k outcome t t') in
      selectedSubject (chatState cleared) = Some s
      /\ exists m, messages (chatState cleared)
                   = [greeting (toString c) (Some s) c'; m]
                   /\ role m = model /\ id m = toString (t + 1)).
Proof.
  intros Hk. split.
  - cbn [step]. unfold tutorSettled, handleBackToHome.
    cbn [setChatState tasks]. rewrite Hk.
    destruct (generateTutorResponse outcome);
      cbn [chatState selectedSubject messages app];
      (split; [reflexivity|]); eexists; repeat split.
  - intros s Hs. cbn [step]. unfold tutorSettled, handleClearChat.
    rewrite Hs. cbn [setChatState tasks]. rewrite Hk.
    destruct (generateTutorResponse outcome);
      cbn [setChatState chatState selectedSubject messages app];
      rewrite Hs; (split; [reflexivity|]); eexists; repeat split.
Qed.

(** X18: clearing the chat while a text request is in flight resets
    [isLoading], so the next send is accepted and a second text request is
    issued beside the first. *)
Theorem clear_reopens_the_gate (w : World) (k : nat)
  (userText prompt : jsstring) (subject s : Subject) (style : ImageStyle)
  (c c' t t' : Z) :
  selectedSubject (chatState w) = Some s ->
  nth_error (tasks w) k = Some (AwaitTutor userText subject style) ->
  truthy (trim prompt) = true ->
  let w1 := step w (ClearChat true c c') in
  let w2 := step (step w1 (ChangeInput prompt)) (Submit t t') in
  isLoading (chatState w1) = false
  /\ nth_error (tasks w2) k = Some (AwaitTutor userText subject style)
  /\ nth_error (tasks w2) (List.length (tasks w))
     = Some (AwaitTutor prompt s (visualStyle w))
  /\ (k < List.length (tasks w))%nat
  /\ List.length (filter isTutorCall (calls w2))
     = S (List.length (filter isTutorCall (calls w))).
Proof.
  intros Hs Hk Hp w1 w2.
  assert (Hlt : (k < List.length (tasks w))%nat)
    by (apply nth_error_Some; congruence).
  subst w2 w1. cbn [step]. unfold handleClearChat. rewrite Hs.
  unfold handleSendMessage.
  cbn [setChatState setInputText chatState selectedSubject isLoading
       inputText tasks calls visualStyle].
  rewrite Hs, Hp. cbn [negb orb tasks calls text].
  split; [reflexivity|]. split; [now rewrite nth_error_app1|].
  split; [now rewrite nth_error_app2, Nat.sub_diag by lia|].
  split; [exact Hlt|].
  rewrite count_tutor_snoc. cbn [isTutorCall]. lia.
Qed.

(** *** Voice input *)

(** X19: a transcript replaces an empty input and is appended to a
    non-empty one after one space; the conversation is untouched, and a
    transcript that is not blank makes the prompt sendable. *)
Theorem transcript_is_appended (transcript : jsstring) (w : World) :
  let w' := handleTranscript transcript w in
  (inputText w = [] -> inputText w' = transcript)
  /\ (inputText w <> [] ->
      inputText w' = inputText w ++ lit " " ++ transcript)
  /\ chatState w' = chatState w
  /\ (truthy (trim transcript) = true ->
      truthy (trim (inputText w')) = true).
Proof.
  intros w'. subst w'. unfold handleTranscript.
  cbn [setInputText inputText chatState].
  split; [|split; [|split; [reflexivity|]]].
  - intros ->. reflexivity.
  - intros Hne. destruct (inputText w) as [|x r]; [congruence|].
    cbn [truthy]. now rewrite <- app_assoc.
  - intros H.
    destruct (truthy (trim (_ ++ transcript))) eqn:E; [reflexivity|].
    apply trim_empty_iff in E. apply Forall_app in E as [_ E].
    apply trim_empty_iff in E. congruence.
Qed.

(** *** Witnesses *)

Lemma send_then_reply_witness :
  exists userMessage botMessage,
    messages (chatState
      (step (step readyPhysics (Submit 2000 2000))
            (TutorSettled 0 (Some gravityResponse) 3000 3000)))
    = messages (chatState readyPhysics) ++ [userMessage; botMessage]
    /\ text userMessage = lit "What is gravity?"
    /\ id userMessage <> id botMessage
    /\ getSuggestions (chatState
         (step (step readyPhysics (Submit 2000 2000))
               (TutorSettled 0 (Some gravityResponse) 3000 3000)))
       = SUGGESTIONS.
Proof.
  destruct (send_then_reply readyPhysics PHYSICS gravityResponse
              2000 2000 3000 3000 eq_refl eq_refl eq_refl)
    as (u & b & H1 & _ & H3 & _ & _ & _ & _ & _ & H9 & _ & _ & _ & _ & _ & _ & H16).
  exists u, b. split; [exact H1|]. split; [exact H3|].
  split; [apply H9; lia|exact H16].
Defined.

Lemma loading_has_pending_request_witness :
  exists k userText subject style,
    nth_error (tasks awaitingTutor) k = Some (AwaitTutor userText subject style)
    /\ isLoading (chatState (step awaitingTutor (TutorSettled k None 3000 3000)))
       = false.
Proof.
  assert (Hw : reachable awaitingTutor)
    by (apply reachable_run; [constructor|reflexivity]).
  destruct (loading_has_pending_request awaitingTutor Hw eq_refl)
    as (k & ut & sj & sty & Hk & H).
  exists k, ut, sj, sty. split; [exact Hk|apply H].
Defined.

Lemma messages_have_text_witness :
  Forall (fun m => text m <> []) (messages (chatState firstTurnDone)).
Proof.
  apply Forall_forall.
  apply (messages_have_text firstTurnDone).
  apply reachable_run; [|reflexivity].
  apply reachable_run; [constructor|reflexivity].
Defined.

Lemma selected_subject_has_card_witness :
  PHYSICS <> GENERAL
  /\ exists config,
       currentSubjectConfig PHYSICS = Some config
       /\ config_id config = Some PHYSICS.
Proof.
  apply (selected_subject_has_card readyPhysics PHYSICS).
  - apply reachable_run; [constructor|reflexivity].
  - reflexivity.
Defined.


Lemma late_reply_joins_new_conversation_witness :
  selectedSubject
    (chatState (step (step awaitingTutor BackToHome)
                     (TutorSettled 0 (Some gravityResponse) 3000 3000)))
  = None
  /\ exists m,
       messages
         (chatState (step (step awaitingTutor BackToHome)
                          (TutorSettled 0 (Some gravityResponse) 3000 3000)))
       = [m]
       /\ role m = model /\ id m = toString (3000 + 1).
Proof.
  destruct (late_reply_joins_new_conversation awaitingTutor 0
              (lit "What is gravity?") PHYSICS Scientific
              (Some gravityResponse) 3000 3000 2500 2500 eq_refl)
    as [H _].
  exact H.
Defined.

Lemma clear_reopens_the_gate_witness :
  isLoading (chatState (step awaitingTutor (ClearChat true 2500 2500))) = false
  /\ nth_error
       (tasks (step (step (step awaitingTutor (ClearChat true 2500 2500))
                          (ChangeInput (lit "Why?")))
                    (Submit 2600 2600))) 0
     = Some (AwaitTutor (lit "What is gravity?") PHYSICS Scientific)
  /\ nth_error
       (tasks (step (step (step awaitingTutor (ClearChat true 2500 2500))
                          (ChangeInput (lit "Why?")))
                    (Submit 2600 2600))) 1
     = Some (AwaitTutor (lit "Why?") PHYSICS Scientific).
Proof.
  destruct (clear_reopens_the_gate awaitingTutor 0 (lit "What is gravity?")
              (lit "Why?") PHYSICS PHYSICS Scientific 2500 2500 2600 2600
              eq_refl eq_refl eq_refl)
    as (H1 & H2 & H3 & _).
  split; [exact H1|]. split; [exact H2|exact H3].
Defined.

End AppExtras.

(** ** The playback controller: teardown, stop, failure, cache *)

Module BubbleExtras.
Import GeminiService GeminiCalls MessageBubble BubbleTeardown BubbleFacts.
Import Scenarios MoreScenarios.

Lemma reachable_contextCounted (m : Message) (b : Bubble) :
  reachableBubble m b -> contextCounted b.
Proof.
  induction 1 as [|b e _ IH _]; [now split|now apply contextCounted_step].
Qed.

(** X20: a bubble constructs at most one audio context, and its teardown
    closes exactly what was constructed: one context, or none if the button
    was never pressed; it stops the source the reference holds. *)
Theorem teardown_closes_the_context (m : Message) (b : Bubble) :
  reachableBubble m b ->
  (contextsConstructed b <= 1)%nat
  /\ closedContexts (cleanup b) = contextsConstructed b
  /\ stoppedSource (cleanup b) = sourceNodeRef b.
Proof.
  intros H. apply reachable_contextCounted in H.
  unfold contextCounted in H. unfold cleanup. cbn.
  destruct (audioContextRef b); [|destruct H]; repeat split; lia.
Qed.

Lemma nth_error_snoc {A} (l : list A) (x : A) :
  nth_error (l ++ [x]) (List.length l) = Some x.
Proof. now rewrite nth_error_app2, Nat.sub_diag by lia. Qed.

Lemma playingHasSource_playBuffer (k : nat) (b : Bubble) :
  playingHasSource (playBuffer k b).
Proof.
  intros _. exists (List.length (sourceNodes b)). unfold playBuffer. cbn.
  split; [reflexivity|apply nth_error_snoc].
Qed.

Lemma playingHasSource_startLoading (k : nat) (b : Bubble) :
  playingHasSource (startLoading k b).
Proof.
  unfold startLoading. cbn. destruct (audioBufferRef b).
  - apply (playingHasSource_playBuffer k (setAudioState loading b)).
  - intros H. discriminate H.
Qed.

Lemma playingHasSource_step (b : Bubble) (e : PlayEvent) :
  playingHasSource b -> playingHasSource (playStep b e).
Proof.
  intros P. destruct e as [fresh|k resumed|k base64Audio|s]; cbn [playStep].
  - unfold toggle. destruct (buttonEnabled b); [|exact P].
    unfold handlePlayAudio. destruct (audioState b) eqn:Ea.
    + destruct (audioContextRef b) as [[|]|] eqn:Ec; [| |destruct fresh];
        cbn [audioContextRef setContext]; rewrite ?Ec;
        try apply playingHasSource_startLoading;
        intros H; cbn in H; congruence.
    + destruct (audioContextRef b) as [[|]|] eqn:Ec; [| |destruct fresh];
        cbn [audioContextRef setContext]; rewrite ?Ec;
        try apply playingHasSource_startLoading;
        intros H; cbn in H; congruence.
    + intros H. destruct (sourceNodeRef b); discriminate H.
  - unfold resumeSettled.
    destruct (nth_error (playTasks b) k) as [[| |]|]; try exact P.
    destruct resumed; [apply playingHasSource_startLoading|exact P].
  - unfold speechSettled.
    destruct (nth_error (playTasks b) k) as [[| |]|]; try exact P.
    destruct base64Audio as [data|]; [|intros H; discriminate H].
    destruct (truthy data); [|intros H; discriminate H].
    destruct (decodePCM data); [|intros H; discriminate H].
    apply playingHasSource_playBuffer.
  - unfold sourceEnded.
    destruct (nth_error (sourceNodes b) s) as [[| |]|]; try exact P;
      intros H; discriminate H.
Qed.

Lemma reachable_playingHasSource (m : Message) (b : Bubble) :
  reachableBubble m b -> playingHasSource b.
Proof.
  induction 1 as [|b e _ IH _]; [intros H; discriminate H|].
  now apply playingHasSource_step.
Qed.

Lemma setNth_stops_one (nodes : list SourceStatus) (s : nat) :
  nth_error nodes s = Some Started ->
  nth_error (setNth s Stopped nodes) s = Some Stopped
  /\ S (List.length (filter (fun x => match x with Started => true | _ => false end)
                        (setNth s Stopped nodes)))
     = List.length (filter (fun x => match x with Started => true | _ => false end)
                      nodes).
Proof.
  revert s. induction nodes as [|x l IH]; intros [|s] H; cbn in *;
    try discriminate.
  - injection H as ->. now split.
  - destruct (IH s H) as [H1 H2]. split; [exact H1|].
    destruct x; cbn; lia.
Qed.

(** X21: whenever the bubble is playing, the reference holds a playing
    source, so a press stops that source and goes to idle at once: one
    source less is playing, nothing is requested or left suspended. *)
Theorem press_while_playing_stops (m : Message) (b : Bubble)
  (fresh : ContextState) :
  reachableBubble m b ->
  audioState b = playing ->
  let b' := handlePlayAudio fresh b in
  audioState b' = idle
  /\ (exists s, sourceNodeRef b = Some s
                /\ nth_error (sourceNodes b) s = Some Started
                /\ nth_error (sourceNodes b') s = Some Stopped)
  /\ S (activeSources b') = activeSources b
  /\ playTasks b' = playTasks b
  /\ speechRequests b' = speechRequests b
  /\ contextsConstructed b' = contextsConstructed b
  /\ playingTransitions b' = playingTransitions b.
Proof.
  intros Hr Hp b'.
  destruct (reachable_playingHasSource m b Hr Hp) as (s & Hs & Hn).
  destruct (setNth_stops_one _ _ Hn) as [H1 H2].
  subst b'. unfold handlePlayAudio, activeSources. rewrite Hp, Hs.
  unfold stopSource. rewrite Hn. cbn.
  split; [reflexivity|]. split; [now exists s|]. now split.
Qed.


(** X23: once a decoded buffer is cached, no event ever makes the bubble
    request speech again, and a buffer stays cached. *)
Theorem cached_buffer_stops_requests (es : list PlayEvent) (b : Bubble)
  (buffer : AudioBuffer) :
  audioBufferRef b = Some buffer ->
  speechRequests (playRun b es) = speechRequests b
  /\ exists buffer', audioBufferRef (playRun b es) = Some buffer'.
Proof.
  revert b buffer. induction es as [|e es IH]; intros b buffer Hb;
    [split; [reflexivity|now exists buffer]|].
  assert (S1 : speechRequests (playStep b e) = speechRequests b
               /\ exists buffer', audioBufferRef (playStep b e) = Some buffer').
  { destruct e as [fresh|k resumed|k base64Audio|s]; cbn [playStep];
      unfold toggle, handlePlayAudio, resumeSettled, speechSettled,
        sourceEnded, startLoading, playBuffer, playbackError;
      cbn; rewrite ?Hb; split_cases; rewrite ?Hb; cbn;
      split; try reflexivity; eauto; congruence. }
  destruct S1 as [S1 [buffer' Hb']].
  cbn [playRun fold_left]. fold (playRun (playStep b e) es).
  destruct (IH _ _ Hb') as [I1 I2]. split; [congruence|exact I2].
Qed.

(** X24: the bubble of a user message or of an error message never
    leaves its initial state: it has no button. *)
Theorem no_audio_for_user_or_error_messages (m : Message) (b : Bubble) :
  role m = user \/ isError m = Some true ->
  reachableBubble m b -> b = mount m.
Proof.
  intros Hm. induction 1 as [|b e _ IH He]; [reflexivity|]. subst b.
  destruct e as [fresh|k resumed|k base64Audio|s]; cbn in He |- *.
  - unfold toggle, buttonEnabled. cbn.
    destruct Hm as [->| ->]; cbn; [reflexivity|].
    now rewrite andb_false_r.
  - destruct k; discriminate He.
  - destruct k; discriminate He.
  - destruct s; discriminate He.
Qed.

(** *** Witnesses *)

Lemma teardown_closes_the_context_witness :
  (contextsConstructed (playRun (mount tutorReply) doublePress) <= 1)%nat
  /\ closedContexts (cleanup (playRun (mount tutorReply) doublePress)) = 1%nat
  /\ closedContexts (cleanup (mount tutorReply)) = 0%nat.
Proof.
  destruct (teardown_closes_the_context tutorReply
              (playRun (mount tutorReply) doublePress))
    as (H1 & H2 & _).
  - apply bubble_reachable_run; [constructor|reflexivity].
  - split; [exact H1|]. split; [exact H2|reflexivity].
Defined.

Lemma press_while_playing_stops_witness :
  audioState (handlePlayAudio running (playRun (mount tutorReply) pressAndPlay))
  = idle
  /\ activeSources (playRun (mount tutorReply) pressAndPlay) = 1%nat
  /\ activeSources
       (handlePlayAudio running (playRun (mount tutorReply) pressAndPlay))
     = 0%nat.
Proof.
  destruct (press_while_playing_stops tutorReply
              (playRun (mount tutorReply) pressAndPlay) running)
    as (H1 & _).
  - apply bubble_reachable_run; [constructor|reflexivity].
  - reflexivity.
  - split; [exact H1|]. split; reflexivity.
Defined.


Lemma cached_buffer_stops_requests_witness :
  speechRequests
    (playRun (playRun (mount tutorReply) pressAndPlay) stopAndReplay)
  = [text tutorReply]
  /\ audioState
       (playRun (playRun (mount tutorReply) pressAndPlay) stopAndReplay)
     = playing.
Proof.
  destruct (cached_buffer_stops_requests stopAndReplay
              (playRun (mount tutorReply) pressAndPlay)
              {| numberOfChannels := 1;
                 frameLength := 4;
                 sampleRate := 24000;
                 channelData :=
                   [map toFloat [32767; -32768; -1; 1]%Z] |} eq_refl)
    as [H _].
  split; [exact H|reflexivity].
Defined.

Lemma no_audio_for_user_or_error_messages_witness :
  playEnabled (mount studentQuestion) (Click running) = false
  /\ mount studentQuestion = mount studentQuestion.
Proof.
  split; [reflexivity|].
  apply (no_audio_for_user_or_error_messages studentQuestion).
  - left. reflexivity.
  - constructor.
Defined.

End BubbleExtras.
